(** * Face-recognition attendance: the ledger, the two matchers, enrollment

    A shallow embedding of [main.py] (class [FaceRecognitionAttendance],
    the embedding matcher) and [main2.py] (class [LightweightFaceAttendance],
    the trained-classifier matcher).

    The outside world is explicit state: the attendance file is the text it
    holds, the employee directory is a finite map from file names to images,
    the GPIO lines and the console are traces.  What the third-party
    libraries compute on pixels (face detection, descriptors, the LBPH
    histogram comparison) enters as Section variables; what they do to the
    control flow (which comparison, which index, which exception) is written
    out. *)

From Stdlib Require Import Ascii String QArith Qabs.
From stdpp Require Import gmap strings list fin_maps pretty.

Local Open Scope string_scope.
Local Open Scope list_scope.

(** ** Text: characters, substring test, csv writer, text-mode reading *)

Module Text.

Definition LF : ascii := "010"%char.
Definition CR : ascii := "013"%char.
Definition DQUOTE : ascii := "034"%char.
Definition COMMA : ascii := ","%char.

Definition chr (c : ascii) : string := String c EmptyString.

(** Python's [needle in hay] on [str]: [needle] occurs as a contiguous
    substring of [hay]. *)
Fixpoint str_in (needle hay : string) : bool :=
  String.prefix needle hay ||
  match hay with
  | EmptyString => false
  | String _ hay' => str_in needle hay'
  end.

(** [all_chars p s]: every character of [s] satisfies [p]. *)
Fixpoint all_chars (p : ascii -> bool) (s : string) : bool :=
  match s with
  | EmptyString => true
  | String c s' => p c && all_chars p s'
  end.

(** *** [csv.writer] with the default (excel) dialect

    delimiter [,], quotechar the double quote, [doublequote=True],
    [QUOTE_MINIMAL], line terminator CR LF. *)

Definition is_special (c : ascii) : bool :=
  Ascii.eqb c COMMA || Ascii.eqb c DQUOTE || Ascii.eqb c CR || Ascii.eqb c LF.

Definition needs_quote (field : string) : bool :=
  negb (all_chars (fun c => negb (is_special c)) field).

Fixpoint double_quotes (field : string) : string :=
  match field with
  | EmptyString => EmptyString
  | String c rest =>
      if Ascii.eqb c DQUOTE
      then String DQUOTE (String DQUOTE (double_quotes rest))
      else String c (double_quotes rest)
  end.

Definition csv_field (field : string) : string :=
  if needs_quote field
  then chr DQUOTE +:+ double_quotes field +:+ chr DQUOTE
  else field.

Fixpoint join_fields (fields : list string) : string :=
  match fields with
  | [] => EmptyString
  | [f] => f
  | f :: rest => f +:+ chr COMMA +:+ join_fields rest
  end.

Definition CRLF : string := String CR (String LF EmptyString).

(** [writer.writerow(fields)]: the text written to the file.  A row made
    of one empty field is written as a pair of quotes. *)
Definition writerow (fields : list string) : string :=
  match fields with
  | [EmptyString] => chr DQUOTE +:+ chr DQUOTE +:+ CRLF
  | _ => join_fields (map csv_field fields) +:+ CRLF
  end.

(** The text of a file into which [rows] were written one after the other. *)
Fixpoint render (rows : list (list string)) : string :=
  match rows with
  | [] => EmptyString
  | r :: rest => writerow r +:+ render rest
  end.

(** *** Reading a file opened with [open(path, 'r')]

    Text mode with universal newlines: CR LF, a lone CR and a lone LF all
    end a line and reach the program as LF.  [pending_cr] is the decoder's
    flag: the previous character was a CR, so an LF now belongs to it. *)
Fixpoint universal_newlines (pending_cr : bool) (s : string) : string :=
  match s with
  | EmptyString => EmptyString
  | String c rest =>
      if Ascii.eqb c CR then String LF (universal_newlines true rest)
      else if Ascii.eqb c LF then
        if pending_cr then universal_newlines false rest
        else String LF (universal_newlines false rest)
      else String c (universal_newlines false rest)
  end.

(** [for line in file]: the translated text cut after every LF; each line
    keeps its LF, the last one may lack it. *)
Fixpoint split_lines (cur : string) (s : string) : list string :=
  match s with
  | EmptyString =>
      match cur with EmptyString => [] | _ => [cur] end
  | String c rest =>
      if Ascii.eqb c LF then (cur +:+ chr LF) :: split_lines EmptyString rest
      else split_lines (cur +:+ chr c) rest
  end.

Definition readlines (content : string) : list string :=
  split_lines EmptyString (universal_newlines false content).

(** *** [datetime.now()] and [strftime] *)

Record datetime := {
  year : nat; month : nat; day : nat;
  hour : nat; minute : nat; second : nat
}.

Definition digit (n : nat) : ascii := ascii_of_nat (48 + n mod 10).

Definition pad2 (n : nat) : string :=
  String (digit (n / 10)) (String (digit n) EmptyString).

Definition pad4 (n : nat) : string :=
  String (digit (n / 1000)) (String (digit (n / 100)) (pad2 n)).

(** [now.strftime("%Y-%m-%d")], the year on four digits (the clock's year
    lies between 1000 and 9999). *)
Definition strftime_date (now : datetime) : string :=
  pad4 (year now) +:+ "-" +:+ pad2 (month now) +:+ "-" +:+ pad2 (day now).

(** [now.strftime("%H:%M:%S")] *)
Definition strftime_time (now : datetime) : string :=
  pad2 (hour now) +:+ ":" +:+ pad2 (minute now) +:+ ":" +:+ pad2 (second now).

End Text.

Import Text.

(** ** The attendance ledger ([mark_attendance], identical in both files) *)

Module Ledger.

Inductive level := HIGH | LOW.

(** What the hardware sees: a GPIO write, a pause (in milliseconds), or
    [GPIO.cleanup()]. *)
Inductive hw_event :=
| GpioOutput (pin : nat) (lv : level)
| Sleep (ms : nat)
| Cleanup.

Definition led_pin : nat := 17.
Definition buzzer_pin : nat := 18.

(** The part of the world both programs share.  [attendance_log] is the
    content of the file of that name, [None] when the file does not
    exist. *)
Record Env := {
  attendance_log : option string;
  hw : list hw_event;
  stdout : list string
}.

Definition print (msg : string) (e : Env) : Env :=
  {| attendance_log := attendance_log e;
     hw := hw e;
     stdout := stdout e ++ [msg] |}.

(** [open(path, 'a')] then write: the file is created when missing. *)
Definition append_log (text : string) (e : Env) : Env :=
  {| attendance_log := Some (default EmptyString (attendance_log e) +:+ text);
     hw := hw e;
     stdout := stdout e |}.

Definition pulse : list hw_event :=
  [GpioOutput led_pin HIGH; GpioOutput buzzer_pin HIGH; Sleep 500;
   GpioOutput led_pin LOW; GpioOutput buzzer_pin LOW].

Definition success_indication (e : Env) : Env :=
  {| attendance_log := attendance_log e;
     hw := hw e ++ pulse;
     stdout := stdout e |}.

(** The scan of lines 70-77: [for line in file: if name in line and
    date_str in line: ... break]. *)
Definition already_marked (name date_str : string) (e : Env) : bool :=
  match attendance_log e with
  | Some content =>
      existsb (fun line => str_in name line && str_in date_str line)
              (readlines content)
  | None => false
  end.

Definition mark_attendance (name : string) (now : datetime) (e : Env)
  : Env * bool :=
  let date_str := strftime_date now in
  let time_str := strftime_time now in
  if negb (already_marked name date_str e) then
    let e1 := append_log (writerow [name; date_str; time_str]) e in
    let e2 := print ("Attendance marked for " +:+ name +:+ " at " +:+ time_str) e1 in
    (success_indication e2, true)
  else
    (print (name +:+ " already marked attendance today") e, false).

(** How many times the feedback signal was given: the rising edges on
    the LED line. *)
Definition is_led_on (ev : hw_event) : bool :=
  match ev with
  | GpioOutput p HIGH => Nat.eqb p led_pin
  | _ => false
  end.

Definition signals (e : Env) : nat :=
  length (List.filter is_led_on (hw e)).

End Ledger.


(** ** Files of the employee directory *)

Module Files.

(** [s.endswith(suffix)] *)
Definition ends_with (suffix s : string) : bool :=
  String.prefix (String.rev suffix) (String.rev s).

Definition is_image_file (filename : string) : bool :=
  ends_with ".jpg" filename || ends_with ".png" filename.

Definition is_dot (c : ascii) : bool := Ascii.eqb c "."%char.

(** [root] and [ext] walk the name from its end: [ext_rev] is what was
    read so far, last character first. *)
Fixpoint split_at_last_dot (rev_name : string) (ext_rev : string)
  : option (string * string) :=
  match rev_name with
  | EmptyString => None
  | String c rest =>
      if is_dot c then Some (String.rev rest, String c (String.rev ext_rev))
      else split_at_last_dot rest (String c ext_rev)
  end.

(** [os.path.splitext(filename)[0]] for a name without directory part,
    as [os.listdir] gives them (no [/] in it): the name up to its last
    dot; a name with no dot, or with only dots before the last one, has
    no extension and is its own root. *)
Definition splitext_root (filename : string) : string :=
  match split_at_last_dot (String.rev filename) EmptyString with
  | Some (root, _) => if all_chars is_dot root then filename else root
  | None => filename
  end.

(** A name an entry of a directory can bear: not empty, not [.] or
    [..], without [/] and without the NUL character, of at most 255
    bytes.  [os.listdir] gives such names only, and a file is created in
    a directory under such a name only: with a [/] in it the path names
    an entry of another directory. *)
Definition is_entry_char (c : ascii) : bool :=
  negb (Ascii.eqb c "/"%char) && negb (Ascii.eqb c "000"%char).

Definition is_entry_name (s : string) : bool :=
  all_chars is_entry_char s
  && (0 <? String.length s)%nat && (String.length s <=? 255)%nat
  && negb (String.eqb s ".") && negb (String.eqb s "..").

(** Key codes as [cv2.waitKey(1) & 0xFF] gives them. *)
Definition ord_c : nat := 99.
Definition ord_q : nat := 113.

End Files.

Import Files.

(** What stops a loop: it is still waiting for the next frame, it left by
    [break], or an exception went through it. *)
Inductive exn :=
| IndexError
| ValueError
| FileNotFoundError
| CvError (msg : string).

Inductive loop_end :=
| Waiting
| Finished
| Raised (e : exn).

(** [str(e)] for the exceptions above. *)
Definition exn_text (e : exn) : string :=
  match e with
  | IndexError => "list index out of range"
  | ValueError => "attempt to get argmin of an empty sequence"
  | FileNotFoundError => "No such file or directory"
  | CvError msg => msg
  end.

(** [x < y] on floats that are finite, as rationals. *)
Definition Qltb (x y : Q) : bool := negb (Qle_bool y x).

(** ** [main.py]: the embedding matcher *)

Module Embedding.

(** The float [0.6] passed as [tolerance=0.6], as the rational it is. *)
Definition tolerance : Q := 5404319552844595 # 9007199254740992.

(** [np.argmin]: the index of the first occurrence of the minimum;
    [ValueError] (here [None]) on an empty array. *)
Fixpoint argmin_from (best_i : nat) (best : Q) (i : nat) (l : list Q) : nat :=
  match l with
  | [] => best_i
  | x :: rest =>
      if Qltb x best then argmin_from i x (S i) rest
      else argmin_from best_i best (S i) rest
  end.

Definition argmin (l : list Q) : option nat :=
  match l with
  | [] => None
  | x :: rest => Some (argmin_from 0 x 1 rest)
  end.

Section WithOracles.

(** Pictures and 128-dimensional face descriptors. *)
Context {image descriptor : Type}.

(** [face_recognition.face_encodings(image)]: one descriptor per face
    found in the picture, in the detector's order. *)
Variable face_encodings : image -> list descriptor.

(** [cv2.resize(frame, (0, 0), fx=0.25, fy=0.25)[:, :, ::-1]] *)
Variable shrink : image -> image.

(** [np.linalg.norm(known - query)], a finite float, as a rational. *)
Variable distance : descriptor -> descriptor -> Q.

Record System := {
  env : Ledger.Env;
  database : gmap string image;
  known_face_encodings : list descriptor;
  known_face_names : list string
}.

Definition with_env (e : Ledger.Env) (s : System) : System :=
  {| env := e;
     database := database s;
     known_face_encodings := known_face_encodings s;
     known_face_names := known_face_names s |}.

Definition with_database (db : gmap string image) (s : System) : System :=
  {| env := env s;
     database := db;
     known_face_encodings := known_face_encodings s;
     known_face_names := known_face_names s |}.

Definition print (msg : string) (s : System) : System :=
  with_env (Ledger.print msg (env s)) s.

(** [known_face_encodings.append(encoding)] and
    [known_face_names.append(name)] *)
Definition remember (encoding : descriptor) (name : string) (s : System)
  : System :=
  {| env := env s;
     database := database s;
     known_face_encodings := known_face_encodings s ++ [encoding];
     known_face_names := known_face_names s ++ [name] |}.

(** The body of the loop of [load_known_faces] for one directory entry. *)
Definition load_file (s : System) (entry : string * image) : System :=
  let '(filename, image) := entry in
  if is_image_file filename then
    let name := splitext_root filename in
    match face_encodings image with
    | encoding :: _ => print ("Loaded: " +:+ name) (remember encoding name s)
    | [] => print ("Warning: No face found in " +:+ filename) s
    end
  else s.

(** [load_known_faces], on the listing [os.listdir] gave. *)
Definition load_known_faces_on (listing : list (string * image)) (s : System)
  : System :=
  let s1 := print "Loading employee database..." s in
  let s2 := fold_left load_file listing s1 in
  print ("Database loaded. " +:+ pretty (length (known_face_names s2))
         +:+ " employees registered.") s2.

Definition load_known_faces (s : System) : System :=
  load_known_faces_on (map_to_list (database s)) s.

(** [face_recognition.face_distance] *)
Definition face_distance (known : list descriptor) (face : descriptor)
  : list Q :=
  map (fun k => distance k face) known.

(** [face_recognition.compare_faces], which is
    [list(face_distance(known, face) <= tolerance)]. *)
Definition compare_faces (known : list descriptor) (face : descriptor)
  (tol : Q) : list bool :=
  map (fun d => Qle_bool d tol) (face_distance known face).

(** Lines 136-146 of [run]: the decision for one face of a frame.  The
    result is the state after it and the name drawn on the frame. *)
Definition recognize_face (face_encoding : descriptor) (now : datetime)
  (s : System) : exn + (System * string) :=
  let matches := compare_faces (known_face_encodings s) face_encoding tolerance in
  let face_distances := face_distance (known_face_encodings s) face_encoding in
  if (0 <? length face_distances)%nat then
    match argmin face_distances with
    | None => inl ValueError
    | Some best_match_index =>
        match matches !! best_match_index with
        | None => inl IndexError
        | Some true =>
            match known_face_names s !! best_match_index with
            | None => inl IndexError
            | Some name =>
                inr (with_env (fst (Ledger.mark_attendance name now (env s))) s,
                     name)
            end
        | Some false => inr (s, "Unknown")
        end
    end
  else inr (s, "Unknown").

(** The [for] loop over the faces of one frame; an exception leaves it
    with what the earlier faces already did. *)
Fixpoint recognize_faces (faces : list descriptor) (now : datetime)
  (s : System) : System * option exn :=
  match faces with
  | [] => (s, None)
  | face :: rest =>
      match recognize_face face now s with
      | inl e => (s, Some e)
      | inr (s', _) => recognize_faces rest now s'
      end
  end.

(** One turn of a camera loop: what [camera.read()] returned, the key
    code, and the clock. *)
Record tick := {
  frame : option image;
  key : nat;
  clock : datetime
}.

Definition cleanup (s : System) : System :=
  with_env {| Ledger.attendance_log := Ledger.attendance_log (env s);
              Ledger.hw := Ledger.hw (env s) ++ [Ledger.Cleanup];
              Ledger.stdout := Ledger.stdout (env s) |} s.

Definition pause (s : System) : System :=
  with_env {| Ledger.attendance_log := Ledger.attendance_log (env s);
              Ledger.hw := Ledger.hw (env s) ++ [Ledger.Sleep 100];
              Ledger.stdout := Ledger.stdout (env s) |} s.

Fixpoint run_loop (ticks : list tick) (s : System) : System * loop_end :=
  match ticks with
  | [] => (s, Waiting)
  | t :: rest =>
      match frame t with
      | None => (print "Failed to capture image" s, Finished)
      | Some fr =>
          match recognize_faces (face_encodings (shrink fr)) (clock t) s with
          | (s', Some e) => (s', Raised e)
          | (s', None) =>
              if (key t =? ord_q)%nat then (s', Finished)
              else run_loop rest (pause s')
          end
      end
  end.

(** [run]: the loop, then the [finally] block while the loop has ended. *)
Definition run (ticks : list tick) (s : System) : System * loop_end :=
  let s0 := print "Press 'q' to quit"
              (print "Starting face recognition attendance system..." s) in
  match run_loop ticks s0 with
  | (s', Waiting) => (s', Waiting)
  | (s', stop) => (cleanup s', stop)
  end.

(** [cv2.imwrite(filename, frame)] and [os.remove(filename)], [filename]
    being [os.path.join(database_path, entry)] for an entry name of the
    directory ([is_entry_name]): the picture is filed under that name.
    With a name that is no entry name ([a/b.jpg]) the real path leaves
    the directory, and what is written there is no part of this state. *)
Definition imwrite (filename : string) (fr : image) (s : System) : System :=
  with_database (<[filename := fr]> (database s)) s.

Definition os_remove (filename : string) (s : System) : System :=
  with_database (delete filename (database s)) s.

Fixpoint add_employee_loop (name : string) (ticks : list tick) (s : System)
  : System * loop_end :=
  match ticks with
  | [] => (s, Waiting)
  | t :: rest =>
      match frame t with
      | None => (print "Failed to capture image" s, Finished)
      | Some fr =>
          if (key t =? ord_c)%nat then
            let filename := name +:+ ".jpg" in
            let s1 := imwrite filename fr s in
            match database s1 !! filename with
            | None => (s1, Raised FileNotFoundError)
            | Some image =>
                match face_encodings image with
                | encoding :: _ =>
                    (print ("Successfully added " +:+ name +:+ " to database")
                           (remember encoding name s1), Finished)
                | [] =>
                    add_employee_loop name rest
                      (os_remove filename
                         (print "No face detected! Please try again." s1))
                end
            end
          else if (key t =? ord_q)%nat then
            (print "Cancelled adding employee" s, Finished)
          else add_employee_loop name rest s
      end
  end.

Definition add_employee (name : string) (ticks : list tick) (s : System)
  : System * loop_end :=
  add_employee_loop name ticks
    (print "Press 'c' to capture, 'q' to cancel"
       (print "Position face in front of camera"
          (print ("Adding new employee: " +:+ name) s))).

End WithOracles.

End Embedding.


(** ** [main2.py]: the trained-classifier matcher *)

Module Classifier.

(** The threshold of [if confidence < 70]. *)
Definition threshold : Q := 70 # 1.

(** A face rectangle [(x, y, w, h)]. *)
Definition rect : Type := Z * Z * Z * Z.

Section WithOracles.

(** Pictures, and cropped grayscale faces [img[y:y+h, x:x+w]]. *)
Context {image region : Type}.

(** [cv2.cvtColor(frame, cv2.COLOR_BGR2GRAY)] on a frame, and
    [cv2.imread(path, cv2.IMREAD_GRAYSCALE)] on a stored file. *)
Variable to_gray : image -> image.

(** [face_cascade.detectMultiScale(gray, ...)] *)
Variable detectMultiScale : image -> list rect.

Variable crop : image -> rect -> region.

(** [cv2.rectangle(frame, ...)], which draws on the frame it is given. *)
Variable rectangle : image -> rect -> image.

(** What a trained LBPH recognizer answers: a label and a confidence
    (a finite float, as a rational), from the samples it was trained on. *)
Variable lbph_predict : list (region * Z) -> region -> Z * Q.

(** [str(e)] for the [cv2.error] that [predict] raises on a recognizer
    that was never trained: the text OpenCV builds, with its version, the
    source file and line, the error code and the function. *)
Variable untrained_text : string.

(** The recognizer is the list of [(face, label)] samples of its last
    [train]; a fresh [LBPHFaceRecognizer_create()] has none.
    [model_file] is [models/face_recognizer.yml], [id_map_file] is
    [models/employee_ids.csv]. *)
Record System := {
  env : Ledger.Env;
  database : gmap string image;
  recognizer : list (region * Z);
  employee_ids : gmap Z string;
  model_file : option (list (region * Z));
  id_map_file : option string
}.

Definition with_env (e : Ledger.Env) (s : System) : System :=
  {| env := e;
     database := database s;
     recognizer := recognizer s;
     employee_ids := employee_ids s;
     model_file := model_file s;
     id_map_file := id_map_file s |}.

Definition print (msg : string) (s : System) : System :=
  with_env (Ledger.print msg (env s)) s.

(** [recognizer.predict(face_img)] *)
Definition predict (model : list (region * Z)) (face_img : region)
  : exn + (Z * Q) :=
  match model with
  | [] => inl (CvError untrained_text)
  | _ => inr (lbph_predict model face_img)
  end.

(** The locals of [train_model] while it walks the directory.  [id_map]
    keeps the order of insertion, as a Python dict does. *)
Record training := {
  faces : list region;
  ids : list Z;
  next_id : Z;
  id_map : list (Z * string);
  log : list string
}.

Definition training_start : training :=
  {| faces := []; ids := []; next_id := 1; id_map := []; log := [] |}.

(** The body of the loop of lines 78-105 for one directory entry. *)
Definition train_file (t : training) (entry : string * image) : training :=
  let '(filename, file) := entry in
  if is_image_file filename then
    let name := splitext_root filename in
    let emp_id := next_id t in
    let img := to_gray file in
    match detectMultiScale img with
    | r :: _ =>
        {| faces := faces t ++ [crop img r];
           ids := ids t ++ [emp_id];
           next_id := (emp_id + 1)%Z;
           id_map := id_map t ++ [(emp_id, name)];
           log := log t ++ ["Processed: " +:+ name] |}
    | [] =>
        {| faces := faces t;
           ids := ids t;
           next_id := (emp_id + 1)%Z;
           id_map := id_map t ++ [(emp_id, name)];
           log := log t |}
    end
  else t.

Definition id_map_line (item : Z * string) : string :=
  pretty (fst item) +:+ "," +:+ snd item +:+ chr LF.

Fixpoint concat_lines (lines : list string) : string :=
  match lines with
  | [] => EmptyString
  | l :: rest => l +:+ concat_lines rest
  end.

(** [train_model], on the listing [os.listdir] gave. *)
Definition train_model_on (listing : list (string * image)) (s : System)
  : System :=
  let t := fold_left train_file listing training_start in
  let e1 := fold_left (fun e msg => Ledger.print msg e) (log t)
              (Ledger.print "Training model with employee database..." (env s)) in
  let samples := zip (faces t) (ids t) in
  if (0 <? length (faces t))%nat then
    {| env := Ledger.print
                ("Model trained and saved with " +:+ pretty (length (faces t))
                 +:+ " faces from " +:+ pretty (length (id_map t))
                 +:+ " employees.") e1;
       database := database s;
       recognizer := samples;
       employee_ids := list_to_map (id_map t);
       model_file := Some samples;
       id_map_file := Some (concat_lines (map id_map_line (id_map t))) |}
  else
    {| env := Ledger.print "No faces found in the database. Model not trained." e1;
       database := database s;
       recognizer := recognizer s;
       employee_ids := list_to_map (id_map t);
       model_file := model_file s;
       id_map_file := Some (concat_lines (map id_map_line (id_map t))) |}.

Definition train_model (s : System) : System :=
  train_model_on (map_to_list (database s)) s.

(** Lines 191-214 of [run]: one detected face.  The result is the state
    after it and the name drawn on the frame, if one is drawn. *)
Definition recognize_face (gray : image) (r : rect) (now : datetime)
  (s : System) : System * option string :=
  let face_img := crop gray r in
  match predict (recognizer s) face_img with
  | inl e => (print ("Error during recognition: " +:+ exn_text e) s, None)
  | inr (id_num, confidence) =>
      if Qltb confidence threshold then
        let name := default "Unknown" (employee_ids s !! id_num) in
        (with_env (fst (Ledger.mark_attendance name now (env s))) s, Some name)
      else (s, Some "Unknown")
  end.

Fixpoint recognize_faces (gray : image) (rects : list rect) (now : datetime)
  (s : System) : System :=
  match rects with
  | [] => s
  | r :: rest => recognize_faces gray rest now (fst (recognize_face gray r now s))
  end.

(** One turn of a camera loop: the array [picam2.capture_array()]
    returned, the key code, and the clock. *)
Record tick := {
  frame : image;
  key : nat;
  clock : datetime
}.

Definition emit (ev : Ledger.hw_event) (s : System) : System :=
  with_env {| Ledger.attendance_log := Ledger.attendance_log (env s);
              Ledger.hw := Ledger.hw (env s) ++ [ev];
              Ledger.stdout := Ledger.stdout (env s) |} s.

Fixpoint run_loop (ticks : list tick) (s : System) : System * loop_end :=
  match ticks with
  | [] => (s, Waiting)
  | t :: rest =>
      let gray := to_gray (frame t) in
      let s' := recognize_faces gray (detectMultiScale gray) (clock t) s in
      if (key t =? ord_q)%nat then (s', Finished)
      else run_loop rest (emit (Ledger.Sleep 100) s')
  end.

Definition run (ticks : list tick) (s : System) : System * loop_end :=
  let s0 := print "Press 'q' to quit"
              (print "Starting face recognition attendance system..." s) in
  match run_loop ticks s0 with
  | (s', Waiting) => (s', Waiting)
  | (s', stop) => (emit Ledger.Cleanup s', stop)
  end.

(** [cv2.imwrite(filename, frame)] for an entry name of the directory
    ([is_entry_name]), as in [Embedding.imwrite]. *)
Definition imwrite (filename : string) (fr : image) (s : System) : System :=
  {| env := env s;
     database := <[filename := fr]> (database s);
     recognizer := recognizer s;
     employee_ids := employee_ids s;
     model_file := model_file s;
     id_map_file := id_map_file s |}.

Fixpoint add_employee_loop (name : string) (ticks : list tick) (s : System)
  : System * loop_end :=
  match ticks with
  | [] => (s, Waiting)
  | t :: rest =>
      let gray := to_gray (frame t) in
      let found := detectMultiScale gray in
      let drawn := fold_left rectangle found (frame t) in
      if (key t =? ord_c)%nat then
        if (0 <? length found)%nat then
          let s1 := imwrite (name +:+ ".jpg") drawn s in
          let s2 := print ("Successfully captured " +:+ name +:+ "'s face image") s1 in
          (train_model s2, Finished)
        else
          add_employee_loop name rest
            (print "No face detected! Please try again." s)
      else if (key t =? ord_q)%nat then
        (print "Cancelled adding employee" s, Finished)
      else add_employee_loop name rest s
  end.

Definition add_employee (name : string) (ticks : list tick) (s : System)
  : System * loop_end :=
  add_employee_loop name ticks
    (print "Press 'c' to capture, 'q' to cancel"
       (print "Position face in front of camera"
          (print ("Adding new employee: " +:+ name) s))).

End WithOracles.

End Classifier.


(** ** [main.py]: what [__init__] does before the menu *)

Module Startup.

(** The calls that configure the GPIO lines. *)
Inductive gpio_setup :=
| Setmode_BCM
| Setup_out (pin : nat).

Section WithOracles.

Context {image descriptor : Type}.
Variable face_encodings : image -> list descriptor.

(** What the program finds when it starts: the attendance file and the
    employee directory, each of which may be missing. *)
Record disk := {
  log_file : option string;
  employees_dir : option (gmap string image)
}.

(** [FaceRecognitionAttendance.__init__]: empty lists, the GPIO set-up,
    [os.makedirs] for a missing directory, the header row written into a
    missing attendance file, then [load_known_faces]. *)
Definition init (d : disk) : @Embedding.System image descriptor * list gpio_setup :=
  let database := default ∅ (employees_dir d) in
  let log :=
    match log_file d with
    | Some content => content
    | None => writerow ["Name"; "Date"; "Time"]
    end in
  (Embedding.load_known_faces face_encodings
     {| Embedding.env := {| Ledger.attendance_log := Some log;
                            Ledger.hw := [];
                            Ledger.stdout := [] |};
        Embedding.database := database;
        Embedding.known_face_encodings := [];
        Embedding.known_face_names := [] |},
   [Setmode_BCM; Setup_out Ledger.led_pin; Setup_out Ledger.buzzer_pin]).

End WithOracles.

End Startup.


(** * Properties *)

(** ** Strings and lines *)

Module TextFacts.

#[local] Arguments String.append !_ _ /.

Lemma app_empty_r (s : string) : s +:+ EmptyString = s.
Proof. induction s as [|c s IH]; simpl; [reflexivity | now f_equal]. Qed.

Lemma app_assoc (a b c : string) : (a +:+ b) +:+ c = a +:+ b +:+ c.
Proof. induction a as [|x a IH]; simpl; [reflexivity | now f_equal]. Qed.

Lemma prefix_app (s t : string) : String.prefix s (s +:+ t) = true.
Proof.
  induction s as [|c s IH]; simpl.
  - now destruct t.
  - destruct (ascii_dec c c) as [_|ne]; [exact IH | now destruct ne].
Qed.

(** [occurs n h]: what [str_in n h] decides. *)
Definition occurs (needle hay : string) : Prop :=
  exists a b, hay = a +:+ needle +:+ b.

Lemma occurs_refl (s : string) : occurs s s.
Proof. exists EmptyString, EmptyString. exact (eq_sym (app_empty_r s)). Qed.

Lemma occurs_wrap (n h x y : string) : occurs n h -> occurs n (x +:+ h +:+ y).
Proof.
  intros (a & b & ->). exists (x +:+ a), (b +:+ y).
  now rewrite !app_assoc.
Qed.

Lemma occurs_left (n h y : string) : occurs n h -> occurs n (h +:+ y).
Proof. intros H. apply (occurs_wrap n h EmptyString y H). Qed.

Lemma occurs_right (n h x : string) : occurs n h -> occurs n (x +:+ h).
Proof.
  intros (a & b & ->). exists (x +:+ a), b. now rewrite app_assoc.
Qed.

Lemma str_in_unfold (n h : string) :
  str_in n h =
  String.prefix n h ||
  match h with EmptyString => false | String _ h' => str_in n h' end.
Proof. now destruct h. Qed.

Lemma str_in_occurs (n h : string) : occurs n h -> str_in n h = true.
Proof.
  intros (a & b & ->). induction a as [|c a IH].
  - rewrite str_in_unfold. simpl. now rewrite prefix_app.
  - rewrite str_in_unfold. simpl. rewrite IH. apply orb_true_r.
Qed.

Lemma all_chars_app (p : ascii -> bool) (a b : string) :
  all_chars p (a +:+ b) = all_chars p a && all_chars p b.
Proof.
  induction a as [|c a IH]; simpl; [reflexivity|].
  now rewrite IH, andb_assoc.
Qed.

Lemma all_chars_impl (p q : ascii -> bool) (s : string) :
  (forall c, p c = true -> q c = true) ->
  all_chars p s = true -> all_chars q s = true.
Proof.
  intros Hpq. induction s as [|c s IH]; simpl; [reflexivity|].
  intros [Hc Hs]%andb_true_iff. rewrite (Hpq _ Hc), (IH Hs). reflexivity.
Qed.

(** A character that does not end a line. *)
Definition inline (c : ascii) : bool :=
  negb (Ascii.eqb c CR) && negb (Ascii.eqb c LF).

(** A character a name may hold for the scan to find it again. *)
Definition scannable (c : ascii) : bool :=
  inline c && negb (Ascii.eqb c DQUOTE).

(** Translating the text ahead of a row leaves the row whole. *)
Lemma universal_newlines_row (r : string) :
  all_chars inline r = true ->
  forall f, universal_newlines f (r +:+ CRLF) = r +:+ chr LF.
Proof.
  induction r as [|c r IH]; simpl; intros H f.
  - reflexivity.
  - apply andb_true_iff in H as [Hc Hr]. unfold inline in Hc.
    apply andb_true_iff in Hc as [H1 H2].
    apply negb_true_iff in H1, H2. rewrite H1, H2. now rewrite IH.
Qed.

Lemma universal_newlines_before_row (a r : string) :
  all_chars inline r = true ->
  forall f, exists a',
    universal_newlines f (a +:+ r +:+ CRLF) = a' +:+ r +:+ chr LF.
Proof.
  intros Hr. induction a as [|c a IH]; intros f.
  - exists EmptyString. simpl. now apply universal_newlines_row.
  - simpl. destruct (Ascii.eqb c CR).
    + destruct (IH true) as [a' ->]. now exists (String LF a').
    + destruct (Ascii.eqb c LF).
      * destruct f.
        -- destruct (IH false) as [a' ->]. now exists a'.
        -- destruct (IH false) as [a' ->]. now exists (String LF a').
      * destruct (IH false) as [a' ->]. now exists (String c a').
Qed.

Lemma split_lines_row (r : string) :
  all_chars inline r = true ->
  forall cur, split_lines cur (r +:+ chr LF) = [cur +:+ r +:+ chr LF].
Proof.
  induction r as [|c r IH]; simpl; intros H cur.
  - reflexivity.
  - apply andb_true_iff in H as [Hc Hr]. unfold inline in Hc.
    apply andb_true_iff in Hc as [_ H2]. apply negb_true_iff in H2.
    rewrite H2, (IH Hr). now rewrite app_assoc.
Qed.

Lemma split_lines_finds_row (a r : string) :
  all_chars inline r = true ->
  forall cur, exists line,
    In line (split_lines cur (a +:+ r +:+ chr LF)) /\ occurs r line.
Proof.
  intros Hr. induction a as [|c a IH]; intros cur.
  - simpl. rewrite (split_lines_row r Hr). exists (cur +:+ r +:+ chr LF).
    split; [now left | apply occurs_wrap, occurs_refl].
  - simpl. destruct (Ascii.eqb c LF).
    + destruct (IH EmptyString) as (line & Hin & Hocc).
      exists line. split; [now right | exact Hocc].
    + apply IH.
Qed.

(** After a row was appended to a file, reading the file gives a line
    that holds the row. *)
Lemma readlines_finds_row (old r : string) :
  all_chars inline r = true ->
  exists line, In line (readlines (old +:+ r +:+ CRLF)) /\ occurs r line.
Proof.
  intros Hr. unfold readlines.
  destruct (universal_newlines_before_row old r Hr false) as [a' ->].
  now apply split_lines_finds_row.
Qed.

Lemma digit_plain (n : nat) :
  is_special (digit n) = false.
Proof.
  unfold digit. pose proof (Nat.mod_upper_bound n 10 ltac:(discriminate)) as H.
  destruct (n mod 10) as [|k]; [reflexivity|].
  do 9 (destruct k as [|k]; [reflexivity|]). lia.
Qed.

Definition unquoted (c : ascii) : bool := negb (is_special c).

Lemma pad2_unquoted (n : nat) : all_chars unquoted (pad2 n) = true.
Proof.
  unfold pad2. cbn [all_chars]. unfold unquoted. now rewrite !digit_plain.
Qed.

Lemma pad4_unquoted (n : nat) : all_chars unquoted (pad4 n) = true.
Proof.
  unfold pad4. cbn [all_chars]. rewrite pad2_unquoted.
  unfold unquoted. now rewrite !digit_plain.
Qed.

Lemma strftime_date_plain (now : datetime) :
  needs_quote (strftime_date now) = false.
Proof.
  unfold needs_quote, strftime_date. fold unquoted.
  now rewrite !all_chars_app, pad4_unquoted, !pad2_unquoted.
Qed.

Lemma strftime_time_plain (now : datetime) :
  needs_quote (strftime_time now) = false.
Proof.
  unfold needs_quote, strftime_time. fold unquoted.
  now rewrite !all_chars_app, !pad2_unquoted.
Qed.

Lemma plain_inline (s : string) :
  needs_quote s = false -> all_chars inline s = true.
Proof.
  unfold needs_quote. intros H%negb_false_iff.
  revert H. apply all_chars_impl. intros c Hc. unfold is_special in Hc.
  apply negb_true_iff in Hc.
  apply orb_false_iff in Hc as [Hc H4]. apply orb_false_iff in Hc as [Hc H3].
  unfold inline. now rewrite H3, H4.
Qed.

Lemma double_quotes_scannable (s : string) :
  all_chars scannable s = true -> double_quotes s = s.
Proof.
  induction s as [|c s IH]; simpl; [reflexivity|].
  intros [Hc Hs]%andb_true_iff. unfold scannable in Hc.
  apply andb_true_iff in Hc as [_ Hq]. apply negb_true_iff in Hq.
  now rewrite Hq, (IH Hs).
Qed.

(** The written form of a name without quote or line end holds the name
    and stays on one line. *)
Lemma csv_field_scannable (s : string) :
  all_chars scannable s = true ->
  occurs s (csv_field s) /\ all_chars inline (csv_field s) = true.
Proof.
  intros Hs.
  assert (Hi : all_chars inline s = true).
  { revert Hs. apply all_chars_impl. unfold scannable.
    now intros c [H _]%andb_true_iff. }
  unfold csv_field. destruct (needs_quote s).
  - rewrite (double_quotes_scannable s Hs). split.
    + apply occurs_wrap, occurs_refl.
    + rewrite !all_chars_app, Hi. reflexivity.
  - split; [apply occurs_refl | exact Hi].
Qed.

End TextFacts.


(** ** The ledger *)

Module LedgerFacts.

Import TextFacts Ledger.

#[local] Arguments String.append !_ _ /.

Lemma occurs_trans (n m h : string) : occurs n m -> occurs m h -> occurs n h.
Proof. intros Hnm (a & b & ->). now apply occurs_wrap. Qed.

Lemma writerow_fields (a b : string) (rest : list string) :
  writerow (a :: b :: rest)
  = join_fields (map csv_field (a :: b :: rest)) +:+ CRLF.
Proof. now destruct a. Qed.

Lemma csv_field_plain (s : string) : needs_quote s = false -> csv_field s = s.
Proof. unfold csv_field. now intros ->. Qed.

Lemma render_app (rows more : list (list string)) :
  render (rows ++ more) = render rows +:+ render more.
Proof.
  induction rows as [|r rows IH]; [reflexivity|].
  change (writerow r +:+ render (rows ++ more)
          = (writerow r +:+ render rows) +:+ render more).
  now rewrite IH, app_assoc.
Qed.

(** The record [mark_attendance] writes. *)
Definition record (name : string) (now : datetime) : list string :=
  [name; strftime_date now; strftime_time now].

(** The text of a written record, without its line end. *)
Definition record_text (name : string) (now : datetime) : string :=
  csv_field name +:+ chr COMMA +:+ strftime_date now +:+ chr COMMA
  +:+ strftime_time now.

Lemma writerow_record (name : string) (now : datetime) :
  writerow (record name now) = record_text name now +:+ CRLF.
Proof.
  unfold record. rewrite writerow_fields. unfold record_text.
  cbn [map join_fields].
  rewrite (csv_field_plain _ (strftime_date_plain now)).
  rewrite (csv_field_plain _ (strftime_time_plain now)).
  now rewrite !app_assoc.
Qed.

Lemma record_text_inline (name : string) (now : datetime) :
  all_chars scannable name = true ->
  all_chars inline (record_text name now) = true.
Proof.
  intros Hn. unfold record_text. rewrite !all_chars_app.
  rewrite (proj2 (csv_field_scannable name Hn)).
  rewrite (plain_inline _ (strftime_date_plain now)).
  rewrite (plain_inline _ (strftime_time_plain now)).
  reflexivity.
Qed.

Lemma record_text_holds_name (name : string) (now : datetime) :
  all_chars scannable name = true -> occurs name (record_text name now).
Proof.
  intros Hn. unfold record_text.
  apply occurs_left. exact (proj1 (csv_field_scannable name Hn)).
Qed.

Lemma record_text_holds_date (name : string) (now : datetime) :
  occurs (strftime_date now) (record_text name now).
Proof.
  unfold record_text. rewrite <- app_assoc.
  apply occurs_wrap, occurs_refl.
Qed.

(** What [mark_attendance] leaves in the file, whatever was there. *)
Lemma mark_attendance_log (name : string) (now : datetime) (e : Env) :
  attendance_log (fst (mark_attendance name now e))
  = if snd (mark_attendance name now e)
    then Some (default EmptyString (attendance_log e)
               +:+ writerow (record name now))
    else attendance_log e.
Proof.
  unfold mark_attendance.
  now destruct (already_marked name (strftime_date now) e).
Qed.

Lemma mark_attendance_result (name : string) (now : datetime) (e : Env) :
  snd (mark_attendance name now e)
  = negb (already_marked name (strftime_date now) e).
Proof.
  unfold mark_attendance.
  now destruct (already_marked name (strftime_date now) e).
Qed.

Lemma mark_attendance_hw (name : string) (now : datetime) (e : Env) :
  hw (fst (mark_attendance name now e))
  = if snd (mark_attendance name now e) then hw e ++ pulse else hw e.
Proof.
  unfold mark_attendance.
  now destruct (already_marked name (strftime_date now) e).
Qed.

(** Once a file holds the record of a name without quote or line end,
    the scan finds it. *)
Lemma already_marked_after_record (name : string) (now : datetime)
  (old : string) (e : Env) :
  all_chars scannable name = true ->
  attendance_log e = Some (old +:+ writerow (record name now)) ->
  already_marked name (strftime_date now) e = true.
Proof.
  intros Hn Hlog. unfold already_marked. rewrite Hlog, writerow_record.
  destruct (readlines_finds_row old (record_text name now)
              (record_text_inline name now Hn)) as (line & Hin & Hocc).
  apply existsb_exists. exists line. split; [exact Hin|].
  apply andb_true_iff. split; apply str_in_occurs.
  - exact (occurs_trans _ _ _ (record_text_holds_name name now Hn) Hocc).
  - exact (occurs_trans _ _ _ (record_text_holds_date name now) Hocc).
Qed.

(** After any call for such a name, the name counts as marked for that
    date. *)
Lemma marked_after (name : string) (now : datetime) (e : Env) :
  all_chars scannable name = true ->
  already_marked name (strftime_date now)
    (fst (mark_attendance name now e)) = true.
Proof.
  intros Hn.
  pose proof (mark_attendance_log name now e) as Hlog.
  pose proof (mark_attendance_result name now e) as Hres.
  destruct (snd (mark_attendance name now e)).
  - eapply already_marked_after_record; [exact Hn | exact Hlog].
  - symmetry in Hres. apply negb_false_iff in Hres.
    unfold already_marked in *. now rewrite Hlog.
Qed.

(** A second call on the same date, for a name without quote or line
    end: nothing is written, no signal is given, the answer is [False]. *)
Lemma mark_attendance_again (name : string) (now later : datetime) (e : Env) :
  all_chars scannable name = true ->
  strftime_date later = strftime_date now ->
  let e1 := fst (mark_attendance name now e) in
  let e2 := fst (mark_attendance name later e1) in
  snd (mark_attendance name later e1) = false
  /\ attendance_log e2 = attendance_log e1
  /\ hw e2 = hw e1.
Proof.
  intros Hn Hd e1 e2.
  assert (Hr : snd (mark_attendance name later e1) = false).
  { rewrite mark_attendance_result, Hd. subst e1.
    now rewrite marked_after. }
  subst e2. now rewrite mark_attendance_log, mark_attendance_hw, Hr.
Qed.

(** A ledger file as the programs create it: the header row, then the
    records written so far. *)
Definition header : list string := ["Name"; "Date"; "Time"].

Definition ledger_of (rows : list (list string)) : Env :=
  {| attendance_log := Some (render (header :: rows));
     hw := [];
     stdout := [] |}.

Definition morning : datetime :=
  {| year := 2024; month := 1; day := 5; hour := 9; minute := 3; second := 7 |}.

Definition noon : datetime :=
  {| year := 2024; month := 1; day := 5; hour := 12; minute := 0; second := 0 |}.

(** A name with a double quote in it: a, the quote, b. *)
Definition quoted_name : string := "a" +:+ chr DQUOTE +:+ "b".

(** The spec's test: some record has exactly this name and this date in
    its first two fields. *)
Definition recorded_exactly (name date_str : string)
  (rows : list (list string)) : bool :=
  existsb (fun row =>
             match row with
             | n :: d :: _ => String.eqb n name && String.eqb d date_str
             | _ => false
             end) rows.

(** *** The lines of the ledger

    The records of the ledger as its reader sees them: the lines of the
    file opened in text mode. *)

(** [last_is p dflt s]: the last character of [s] satisfies [p]; [dflt]
    when [s] is empty. *)
Fixpoint last_is (p : ascii -> bool) (dflt : bool) (s : string) : bool :=
  match s with
  | EmptyString => dflt
  | String c rest => last_is p (p c) rest
  end.

Definition is_line_end (c : ascii) : bool :=
  Ascii.eqb c CR || Ascii.eqb c LF.

(** A text whose last line is complete: it is empty, or it ends with CR
    or LF. *)
Definition ends_line (content : string) : bool :=
  last_is is_line_end true content.

Definition starts_lf (s : string) : bool :=
  match s with
  | String c _ => Ascii.eqb c LF
  | EmptyString => false
  end.

Definition is_empty (s : string) : bool :=
  match s with
  | EmptyString => true
  | String _ _ => false
  end.

Lemma last_is_app (p : ascii -> bool) (a b : string) :
  forall d, last_is p d (a +:+ b) = last_is p (last_is p d a) b.
Proof.
  induction a as [|c a IH]; intros d; simpl; [reflexivity | apply IH].
Qed.

(** The decoder's flag after a text is the only thing the text ahead
    hands over to what follows. *)
Lemma universal_newlines_app (a b : string) :
  forall f,
    universal_newlines f (a +:+ b)
    = universal_newlines f a
      +:+ universal_newlines (last_is (fun c => Ascii.eqb c CR) f a) b.
Proof.
  induction a as [|c a IH]; intros f; simpl; [reflexivity|].
  destruct (Ascii.eqb c CR).
  - now rewrite IH.
  - destruct (Ascii.eqb c LF); [destruct f|]; now rewrite IH.
Qed.

Lemma universal_newlines_pending (f : bool) (b : string) :
  starts_lf b = false ->
  universal_newlines f b = universal_newlines false b.
Proof.
  destruct b as [|c b]; simpl; [reflexivity|]. intros H.
  destruct (Ascii.eqb c CR); [reflexivity|]. now rewrite H.
Qed.

Lemma split_lines_app (t u : string) :
  forall cur,
    last_is (fun c => Ascii.eqb c LF) (is_empty cur) t = true ->
    split_lines cur (t +:+ u) = split_lines cur t ++ split_lines EmptyString u.
Proof.
  induction t as [|c t IH]; intros cur H; simpl in *.
  - destruct cur; [reflexivity | discriminate].
  - destruct (Ascii.eqb c LF).
    + cbn [app]. f_equal. now apply IH.
    + apply IH. destruct cur; exact H.
Qed.

(** A text that ends a line is translated into a text that ends with
    LF. *)
Lemma universal_newlines_ends (a : string) :
  forall f d d',
    (f = true -> d' = true) -> (d = true -> d' = true) ->
    last_is is_line_end d a = true ->
    last_is (fun c => Ascii.eqb c LF) d' (universal_newlines f a) = true.
Proof.
  induction a as [|c a IH]; intros f d d' Hf Hd H; simpl in *.
  - now apply Hd.
  - unfold is_line_end in H. destruct (Ascii.eqb c CR).
    + simpl. apply (IH true true true); auto.
    + destruct (Ascii.eqb c LF) eqn:Hlf.
      * destruct f.
        -- rewrite (Hf eq_refl). apply (IH false true true); auto.
        -- simpl. apply (IH false true true); auto.
      * simpl. rewrite Hlf. apply (IH false false false); auto.
Qed.

(** Reading a text that ends a line, with more text after it: the lines
    of the one, then the lines of the other. *)
Lemma readlines_app (a b : string) :
  ends_line a = true -> starts_lf b = false ->
  readlines (a +:+ b) = readlines a ++ readlines b.
Proof.
  intros Ha Hb. unfold readlines.
  rewrite universal_newlines_app, (universal_newlines_pending _ b Hb).
  apply split_lines_app.
  apply (universal_newlines_ends a false true true); auto.
Qed.

Lemma double_quotes_inline (s : string) :
  all_chars inline s = true -> all_chars inline (double_quotes s) = true.
Proof.
  induction s as [|c s IH]; simpl; [reflexivity|].
  intros [Hc Hs]%andb_true_iff. destruct (Ascii.eqb c DQUOTE).
  - cbn [all_chars]. now rewrite (IH Hs).
  - cbn [all_chars]. now rewrite Hc, (IH Hs).
Qed.

Lemma csv_field_inline (s : string) :
  all_chars inline s = true -> all_chars inline (csv_field s) = true.
Proof.
  intros Hs. unfold csv_field. destruct (needs_quote s); [|exact Hs].
  now rewrite !all_chars_app, (double_quotes_inline s Hs).
Qed.

(** The record of a name without CR or LF is read back as one line. *)
Lemma readlines_record (name : string) (now : datetime) :
  all_chars inline name = true ->
  readlines (writerow (record name now)) = [record_text name now +:+ chr LF].
Proof.
  intros Hn. rewrite writerow_record. unfold readlines.
  assert (Hr : all_chars inline (record_text name now) = true).
  { unfold record_text. rewrite !all_chars_app, (csv_field_inline name Hn).
    rewrite (plain_inline _ (strftime_date_plain now)).
    rewrite (plain_inline _ (strftime_time_plain now)).
    reflexivity. }
  rewrite (universal_newlines_row _ Hr).
  now rewrite (split_lines_row _ Hr).
Qed.

(** A written record never starts with LF: its first character is the
    first of the name, a quote, or the comma. *)
Lemma writerow_record_start (name : string) (now : datetime) :
  starts_lf (writerow (record name now)) = false.
Proof.
  rewrite writerow_record. unfold record_text, csv_field.
  destruct (needs_quote name) eqn:Hq; [reflexivity|].
  destruct name as [|c name]; [reflexivity|].
  unfold needs_quote in Hq. cbn [all_chars] in Hq.
  apply negb_false_iff, andb_true_iff in Hq as [Hc _].
  apply negb_true_iff in Hc. unfold is_special in Hc.
  apply orb_false_iff in Hc as [_ Hlf]. exact Hlf.
Qed.

Lemma ends_line_record (old : string) (name : string) (now : datetime) :
  ends_line (old +:+ writerow (record name now)) = true.
Proof.
  rewrite writerow_record. unfold ends_line. now rewrite !last_is_app.
Qed.

(** A file made of written rows ends a line. *)
Lemma ends_line_render (rows : list (list string)) :
  ends_line (render rows) = true.
Proof.
  unfold ends_line. induction rows as [|r rows IH]; [reflexivity|].
  cbn [render]. rewrite last_is_app.
  replace (last_is is_line_end true (writerow r)) with true; [exact IH|].
  unfold writerow.
  destruct r as [|[|c f] [|g r]]; now rewrite ?last_is_app.
Qed.

(** An unfinished ledger: the header, then the record of Bob without its
    line end. *)
Definition unfinished_ledger : Env :=
  {| attendance_log :=
       Some ("Name,Date,Time" +:+ CRLF +:+ "Bob,2024-01-05,08:00:00");
     hw := [];
     stdout := [] |}.

(** C8: [mark_attendance] only appends.  Whatever the file held, it holds
    afterwards the same text followed by one written record when the call
    answers [True], and the same text, byte for byte, when it answers
    [False].  When the text it held is empty or ends with a line end, the
    lines of the file are afterwards the lines it had, unchanged and in
    their order, followed by the lines of the new record when the call
    answers [True], and the file again ends with a line end; the record
    of a name without CR or LF is one line.  In a file made of written
    records, the earlier records stay as they were and in their order. *)
Theorem mark_attendance_appends_lines (name : string) (now : datetime)
  (e : Env) :
  let e' := fst (mark_attendance name now e) in
  let marked := snd (mark_attendance name now e) in
  let old := default EmptyString (attendance_log e) in
  let new := default EmptyString (attendance_log e') in
  attendance_log e'
  = (if marked
     then Some (old +:+ writerow (record name now))
     else attendance_log e)
  /\ (ends_line old = true ->
      readlines new
      = readlines old
        ++ (if marked then readlines (writerow (record name now)) else [])
      /\ ends_line new = true)
  /\ (all_chars inline name = true ->
      readlines (writerow (record name now))
      = [record_text name now +:+ chr LF])
  /\ (forall rows : list (list string),
        attendance_log e = Some (render rows) ->
        ends_line old = true
        /\ attendance_log e'
           = Some (render (rows ++ if marked then [record name now] else []))).
Proof.
  intros e' marked old new. subst e' marked old new.
  pose proof (mark_attendance_log name now e) as Hlog.
  repeat split.
  - exact Hlog.
  - rewrite Hlog. destruct (snd (mark_attendance name now e)).
    + cbn [default]. apply readlines_app; [exact H|].
      apply writerow_record_start.
    + now rewrite app_nil_r.
  - rewrite Hlog. destruct (snd (mark_attendance name now e)).
    + cbn [default]. apply ends_line_record.
    + exact H.
  - apply readlines_record.
  - rewrite H. apply ends_line_render.
  - rewrite Hlog, H. destruct (snd (mark_attendance name now e)).
    + rewrite render_app. cbn [default render]. now rewrite app_empty_r.
    + now rewrite app_nil_r.
Qed.

Lemma mark_attendance_appends_lines_witness :
  let e := ledger_of [["Bob"; "2024-01-05"; "08:00:00"]] in
  let e' := fst (mark_attendance "Ali" morning e) in
  ends_line (default EmptyString (attendance_log e)) = true
  /\ all_chars inline "Ali" = true
  /\ attendance_log e
     = Some (render [header; ["Bob"; "2024-01-05"; "08:00:00"]])
  /\ readlines (default EmptyString (attendance_log e'))
     = ["Name,Date,Time" +:+ chr LF;
        "Bob,2024-01-05,08:00:00" +:+ chr LF;
        "Ali,2024-01-05,09:03:07" +:+ chr LF]
  /\ readlines (writerow (record "Ali" morning))
     = ["Ali,2024-01-05,09:03:07" +:+ chr LF]
  /\ attendance_log e'
     = Some (render [header; ["Bob"; "2024-01-05"; "08:00:00"];
                     record "Ali" morning]).
Proof.
  destruct (mark_attendance_appends_lines "Ali" morning
              (ledger_of [["Bob"; "2024-01-05"; "08:00:00"]]))
    as (_ & Hlines & Hone & Hrows).
  split; [reflexivity|]. split; [reflexivity|]. split; [reflexivity|].
  split; [exact (proj1 (Hlines eq_refl))|].
  split; [exact (Hone eq_refl)|].
  exact (proj2 (Hrows [header; ["Bob"; "2024-01-05"; "08:00:00"]] eq_refl)).
Defined.

(** C8 as written fails on a file whose last record lacks its line end:
    the call for Ali answers [True], and the record of Bob is no longer
    among the records; the file has as many lines as before, the last one
    made of the record of Bob and the new record together. *)
Lemma mark_attendance_merges_unfinished_record :
  let e' := fst (mark_attendance "Ali" morning unfinished_ledger) in
  snd (mark_attendance "Ali" morning unfinished_ledger) = true
  /\ option_map readlines (attendance_log unfinished_ledger)
     = Some ["Name,Date,Time" +:+ chr LF; "Bob,2024-01-05,08:00:00"]
  /\ option_map readlines (attendance_log e')
     = Some ["Name,Date,Time" +:+ chr LF;
             "Bob,2024-01-05,08:00:00Ali,2024-01-05,09:03:07" +:+ chr LF].
Proof. vm_compute. repeat split. Qed.

(** C1 at a name with a double quote: the writer doubles the quote, the
    scan looks for the name as typed and misses it, so the second call of
    the day writes a second record, answers [True] and signals again. *)
Theorem mark_attendance_twice_quoted_name :
  let first := mark_attendance quoted_name morning (ledger_of []) in
  let second := mark_attendance quoted_name noon (fst first) in
  strftime_date morning = strftime_date noon
  /\ snd first = true
  /\ snd second = true
  /\ attendance_log (fst second)
     = Some (render [header; record quoted_name morning;
                     record quoted_name noon])
  /\ signals (fst second) = 2%nat.
Proof. vm_compute. repeat split. Qed.

(** The same two calls when another name of today holds the name as a
    substring: both answer [False] and no record is written. *)
Lemma mark_attendance_twice_substring_name :
  let e := ledger_of [["Ali"; "2024-01-05"; "08:00:00"]] in
  let first := mark_attendance "Al" morning e in
  let second := mark_attendance "Al" noon (fst first) in
  snd first = false
  /\ snd second = false
  /\ attendance_log (fst second) = attendance_log e
  /\ signals (fst second) = 0%nat.
Proof. vm_compute. repeat split. Qed.

(** C2 at the ledger holding Ali for today: no record has the name Al,
    yet the call for Al answers [False] and writes nothing. *)
Theorem mark_attendance_substring_collision :
  let rows := [["Ali"; "2024-01-05"; "08:00:00"]] in
  let e := ledger_of rows in
  recorded_exactly "Al" (strftime_date morning) (header :: rows) = false
  /\ snd (mark_attendance "Al" morning e) = false
  /\ attendance_log (fst (mark_attendance "Al" morning e)) = attendance_log e.
Proof. vm_compute. repeat split. Qed.

End LedgerFacts.


(** ** The embedding matcher and its enrollment *)

Module EmbeddingFacts.

Import Ledger Embedding.

Lemma Qltb_lt (x y : Q) : Qltb x y = true <-> (x < y)%Q.
Proof.
  unfold Qltb. rewrite negb_true_iff. split.
  - intros H. apply Qnot_le_lt. intros Hle.
    apply Qle_bool_iff in Hle. congruence.
  - intros H. destruct (Qle_bool y x) eqn:E; [|reflexivity].
    apply Qle_bool_iff in E. now apply Qlt_not_le in H.
Qed.

Lemma Qltb_ge (x y : Q) : Qltb x y = false <-> (y <= x)%Q.
Proof.
  unfold Qltb. rewrite negb_false_iff. apply Qle_bool_iff.
Qed.

(** [first_min d i m]: [m] is the value at index [i] of [d], no value of
    [d] is smaller, and every value before [i] is larger. *)
Definition first_min (d : list Q) (i : nat) (m : Q) : Prop :=
  d !! i = Some m
  /\ (forall j x, d !! j = Some x -> (m <= x)%Q)
  /\ (forall j x, (j < i)%nat -> d !! j = Some x -> (m < x)%Q).

Lemma argmin_from_first_min (l pre : list Q) (best_i : nat) (best : Q) :
  first_min pre best_i best ->
  exists m,
    first_min (pre ++ l) (argmin_from best_i best (length pre) l) m.
Proof.
  revert pre best_i best.
  induction l as [|x rest IH]; intros pre best_i best (Hat & Hmin & Hfirst).
  - cbn [argmin_from]. rewrite app_nil_r. exists best.
    now repeat split.
  - cbn [argmin_from].
    replace (pre ++ x :: rest) with ((pre ++ [x]) ++ rest)
      by now rewrite <- app_assoc.
    replace (S (length pre)) with (length (pre ++ [x]))
      by (rewrite length_app; cbn; lia).
    destruct (Qltb x best) eqn:E.
    + apply Qltb_lt in E. apply IH. repeat split.
      * now apply list_lookup_middle.
      * intros j y [[_ Hj]|[_ <-]]%lookup_snoc_Some.
        -- apply Qlt_le_weak, (Qlt_le_trans _ best); [exact E|].
           exact (Hmin j y Hj).
        -- apply Qle_refl.
      * intros j y Hlt [[_ Hj]|[-> _]]%lookup_snoc_Some; [|lia].
        apply (Qlt_le_trans _ best); [exact E | exact (Hmin j y Hj)].
    + apply Qltb_ge in E. apply IH. repeat split.
      * now apply lookup_app_l_Some.
      * intros j y [[_ Hj]|[_ <-]]%lookup_snoc_Some;
          [exact (Hmin j y Hj) | exact E].
      * intros j y Hlt [[_ Hj]|[-> _]]%lookup_snoc_Some.
        -- exact (Hfirst j y Hlt Hj).
        -- apply lookup_lt_Some in Hat. lia.
Qed.

(** [np.argmin] on a non-empty array answers the first index of the
    minimum. *)
Lemma argmin_first_min (d : list Q) :
  d <> [] -> exists i m, argmin d = Some i /\ first_min d i m.
Proof.
  destruct d as [|x rest]; [congruence|]. intros _.
  destruct (argmin_from_first_min rest [x] 0 x) as [m H].
  - repeat split.
    + intros [|j] y Hj; [|now destruct j].
      injection Hj as <-. apply Qle_refl.
    + intros j y Hlt. lia.
  - cbn [app length] in H. now exists (argmin_from 0 x 1 rest), m.
Qed.

(** The first minimum is unique. *)
Lemma first_min_index (d : list Q) (i j : nat) (m n : Q) :
  first_min d i m -> first_min d j n -> i = j.
Proof.
  intros (Hi & Hmi & Hfi) (Hj & Hmj & Hfj).
  destruct (Nat.lt_trichotomy i j) as [Hlt|[Heq|Hgt]]; [|exact Heq|].
  - pose proof (Hfj i m Hlt Hi) as H1. pose proof (Hmi j n Hj) as H2.
    now apply Qlt_not_le in H1.
  - pose proof (Hfi j n Hgt Hj) as H1. pose proof (Hmj i m Hi) as H2.
    now apply Qlt_not_le in H1.
Qed.

Section WithOracles.

Context {image descriptor : Type}.
Variable distance : descriptor -> descriptor -> Q.

Abbreviation System := (@Embedding.System image descriptor).
Abbreviation recognize_face := (Embedding.recognize_face distance).
Abbreviation recognize_faces := (Embedding.recognize_faces distance).
Abbreviation face_distance := (Embedding.face_distance distance).

Lemma face_distance_lookup (known : list descriptor) (face : descriptor)
  (i : nat) :
  face_distance known face !! i
  = option_map (fun k => distance k face) (known !! i).
Proof.
  revert i. induction known as [|k known IH]; intros [|i]; try reflexivity.
  exact (IH i).
Qed.

Lemma compare_faces_lookup (known : list descriptor) (face : descriptor)
  (tol : Q) (i : nat) :
  compare_faces distance known face tol !! i
  = option_map (fun k => Qle_bool (distance k face) tol) (known !! i).
Proof.
  unfold compare_faces.
  revert i. induction known as [|k known IH]; intros [|i]; try reflexivity.
  exact (IH i).
Qed.

(** [nearest known face i k]: [k] is enrolled at index [i], no enrolled
    descriptor is closer to [face], and every one enrolled before [i] is
    farther. *)
Definition nearest (known : list descriptor) (face : descriptor)
  (i : nat) (k : descriptor) : Prop :=
  known !! i = Some k
  /\ (forall j k', known !! j = Some k' ->
        (distance k face <= distance k' face)%Q)
  /\ (forall j k', (j < i)%nat -> known !! j = Some k' ->
        (distance k face < distance k' face)%Q).

Lemma argmin_nearest (known : list descriptor) (face : descriptor) :
  known <> [] ->
  exists i k, argmin (face_distance known face) = Some i
              /\ nearest known face i k.
Proof.
  intros Hne.
  destruct (argmin_first_min (face_distance known face)) as (i & m & Ha & Hm).
  { destruct known; [congruence | discriminate]. }
  destruct Hm as (Hat & Hmin & Hfirst).
  rewrite face_distance_lookup in Hat.
  destruct (known !! i) as [k|] eqn:Hk; [|discriminate].
  injection Hat as <-.
  exists i, k. split; [exact Ha|]. repeat split.
  - exact Hk.
  - intros j k' Hj. apply (Hmin j).
    now rewrite face_distance_lookup, Hj.
  - intros j k' Hlt Hj. apply (Hfirst j); [exact Hlt|].
    now rewrite face_distance_lookup, Hj.
Qed.

(** C3, with the boundary as the code has it.  On a non-empty store the
    face is given to the enrolled descriptor at the first index of
    minimum distance; the name at that index is returned (and marked) when
    that distance is at most the tolerance, [Unknown] when it is above;
    an enrolled descriptor that is farther than another one is never the
    chosen one. *)
Theorem recognize_face_nearest (face : descriptor) (now : datetime)
  (s : System) :
  known_face_encodings s <> [] ->
  length (known_face_names s) = length (known_face_encodings s) ->
  exists i k name,
    nearest (known_face_encodings s) face i k
    /\ known_face_names s !! i = Some name
    /\ ((distance k face <= tolerance)%Q ->
        recognize_face face now s
        = inr (with_env (fst (mark_attendance name now (env s))) s, name))
    /\ ((tolerance < distance k face)%Q ->
        recognize_face face now s = inr (s, "Unknown"))
    /\ (forall a b ka kb,
          known_face_encodings s !! a = Some ka ->
          known_face_encodings s !! b = Some kb ->
          (distance ka face < distance kb face)%Q -> b <> i).
Proof.
  intros Hne Hlen.
  destruct (argmin_nearest _ face Hne) as (i & k & Harg & Hnear).
  pose proof Hnear as (Hk & Hmin & Hfirst).
  destruct (known_face_names s !! i) as [name|] eqn:Hname.
  2:{ apply lookup_ge_None in Hname. apply lookup_lt_Some in Hk. lia. }
  exists i, k, name. split; [exact Hnear|]. split; [exact Hname|].
  assert (Hpos : (0 <? length (face_distance (known_face_encodings s) face))%nat
                 = true).
  { destruct (known_face_encodings s); [congruence | reflexivity]. }
  repeat split.
  - intros Hle. unfold Embedding.recognize_face.
    rewrite Hpos, Harg, compare_faces_lookup, Hk. cbn [option_map].
    apply Qle_bool_iff in Hle. now rewrite Hle, Hname.
  - intros Hgt. unfold Embedding.recognize_face.
    rewrite Hpos, Harg, compare_faces_lookup, Hk. cbn [option_map].
    destruct (Qle_bool (distance k face) tolerance) eqn:E; [|reflexivity].
    apply Qle_bool_iff in E. now apply Qlt_not_le in Hgt.
  - intros a b ka kb Ha Hb Hlt ->.
    assert (kb = k) as -> by congruence.
    pose proof (Hmin a ka Ha) as Hle. now apply Qlt_not_le in Hlt.
Qed.

(** C4: with no enrolled descriptor the decision for a face is [Unknown],
    the state (ledger, signals, store) is untouched and no exception is
    raised; so it is for all the faces of a frame. *)
Theorem recognize_face_empty_store (face : descriptor) (now : datetime)
  (s : System) :
  known_face_encodings s = [] ->
  recognize_face face now s = inr (s, "Unknown")
  /\ forall faces, recognize_faces faces now s = (s, None).
Proof.
  intros Hempty.
  assert (H : forall f, recognize_face f now s = inr (s, "Unknown")).
  { intros f. unfold Embedding.recognize_face. now rewrite Hempty. }
  split; [apply H|].
  induction faces as [|f faces IH]; [reflexivity|].
  cbn [Embedding.recognize_faces]. now rewrite H.
Qed.

End WithOracles.

(** *** Concrete stores

    Pictures that are a number: [0] shows no face, any other number shows
    one face whose descriptor is that number.  Descriptors on one axis,
    where the Euclidean distance is the absolute difference. *)

Definition toy_encodings (picture : nat) : list Q :=
  match picture with
  | O => []
  | S _ => [inject_Z (Z.of_nat picture)]
  end.

Definition toy_distance (a b : Q) : Q := Qabs (a - b).

Definition toy_store (db : gmap string nat) (encodings : list Q)
  (names : list string) : @Embedding.System nat Q :=
  {| env := LedgerFacts.ledger_of [];
     database := db;
     known_face_encodings := encodings;
     known_face_names := names |}.

Definition toy_tick (picture : nat) (k : nat) : @tick nat :=
  {| frame := Some picture; key := k; clock := LedgerFacts.morning |}.

Lemma recognize_face_nearest_witness :
  exists i k name,
    nearest toy_distance [5%Q; 3%Q; 3%Q] (3 + tolerance)%Q i k
    /\ ["eve"; "alice"; "bob"] !! i = Some name
    /\ i = 1%nat /\ name = "alice".
Proof.
  destruct (recognize_face_nearest toy_distance (3 + tolerance)%Q
              LedgerFacts.morning
              (toy_store ∅ [5%Q; 3%Q; 3%Q] ["eve"; "alice"; "bob"])
              ltac:(discriminate) eq_refl)
    as (i & k & name & Hnear & Hname & _).
  exists i, k, name. split; [exact Hnear|]. split; [exact Hname|].
  assert (i = 1%nat) as ->.
  { destruct Hnear as (Hk & Hmin & Hfirst).
    destruct i as [|[|[|i]]]; [| reflexivity | |]; cbn in Hk.
    - injection Hk as <-.
      pose proof (Hmin 1%nat 3%Q eq_refl) as H. vm_compute in H. now destruct H.
    - injection Hk as <-.
      pose proof (Hfirst 1%nat 3%Q ltac:(lia) eq_refl) as H.
      vm_compute in H. discriminate.
    - discriminate. }
  cbn in Hname. injection Hname as <-. now split.
Defined.

Lemma recognize_face_empty_store_witness :
  recognize_face toy_distance 3%Q LedgerFacts.morning
    (toy_store ∅ [] []) = inr (toy_store ∅ [] [], "Unknown").
Proof.
  exact (proj1 (recognize_face_empty_store toy_distance 3%Q
                  LedgerFacts.morning (toy_store ∅ [] []) eq_refl)).
Defined.

(** C3 as written fails on the boundary: a face at distance exactly the
    tolerance from the only enrolled descriptor is accepted, though its
    distance is not below the tolerance. *)
Lemma recognize_face_accepts_at_tolerance :
  let s := toy_store ∅ [0%Q] ["alice"] in
  option_map snd
    (match recognize_face toy_distance tolerance LedgerFacts.morning s with
     | inr r => Some r
     | inl _ => None
     end) = Some "alice"
  /\ ~ (toy_distance 0%Q tolerance < tolerance)%Q.
Proof.
  split; [vm_compute; reflexivity|].
  intros H. vm_compute in H. discriminate.
Qed.

End EmbeddingFacts.


(** ** Enrollment in [main.py] *)

Module EnrollmentFacts.

Import Ledger Embedding EmbeddingFacts.

(** The store of the examples: alice is enrolled, from the picture [7]
    kept as [alice.jpg]. *)
Definition alice_enrolled : @Embedding.System nat Q :=
  toy_store {["alice.jpg" := 7%nat]} [7%Q] ["alice"].

(** C5 on a name that has a picture already: the frame is written over
    [alice.jpg] before it is searched for a face, and the file is removed
    when none is found, so the earlier picture is lost while the lists in
    memory still hold alice. *)
Theorem add_employee_faceless_removes_picture :
  let ticks := [toy_tick 0 ord_c; toy_tick 0 ord_q] in
  let s' := fst (add_employee toy_encodings "alice" ticks alice_enrolled) in
  database alice_enrolled !! "alice.jpg" = Some 7%nat
  /\ snd (add_employee toy_encodings "alice" ticks alice_enrolled) = Finished
  /\ In "No face detected! Please try again." (stdout (env s'))
  /\ database s' !! "alice.jpg" = None
  /\ known_face_names s' = ["alice"]
  /\ known_face_encodings s' = [7%Q].
Proof. vm_compute. repeat split. tauto. Qed.

(** C6 on the same store: enrolling alice again, from the picture [9],
    replaces the file but adds a second entry to the lists in memory, next
    to the first one. *)
Theorem add_employee_again_appends :
  let s' := fst (add_employee toy_encodings "alice" [toy_tick 9 ord_c]
                   alice_enrolled) in
  database s' !! "alice.jpg" = Some 9%nat
  /\ known_face_names s' = ["alice"; "alice"]
  /\ known_face_encodings s' = [7%Q; 9%Q].
Proof. vm_compute. repeat split. Qed.

Section WithOracles.

Context {image descriptor : Type}.
Variable face_encodings : image -> list descriptor.

(** A faceless capture never touches the lists in memory, and leaves the
    directory as it was when the name had no picture yet. *)
Lemma add_employee_faceless_fresh (name : string) (fr : image) (now : datetime)
  (rest : list (@tick image)) (s : @Embedding.System image descriptor) :
  face_encodings fr = [] ->
  database s !! (name +:+ ".jpg") = None ->
  exists s1,
    add_employee_loop face_encodings name
      ({| frame := Some fr; key := ord_c; clock := now |} :: rest) s
    = add_employee_loop face_encodings name rest s1
    /\ database s1 = database s
    /\ known_face_encodings s1 = known_face_encodings s
    /\ known_face_names s1 = known_face_names s.
Proof.
  intros Hnone Hfresh. eexists. split.
  - cbn [add_employee_loop frame key]. rewrite Nat.eqb_refl.
    cbn [imwrite with_database database].
    rewrite lookup_insert_eq, Hnone. reflexivity.
  - cbn. repeat split. now apply delete_insert_id.
Qed.

(** The two lists of the store grow together: a name for every
    descriptor, at the same index. *)
Definition paired (s : @Embedding.System image descriptor) : Prop :=
  length (known_face_names s) = length (known_face_encodings s).

Lemma remember_paired (encoding : descriptor) (name : string)
  (s : @Embedding.System image descriptor) :
  paired s -> paired (remember encoding name s).
Proof.
  unfold paired. cbn. rewrite !length_app. cbn. lia.
Qed.

Lemma load_known_faces_paired (listing : list (string * image))
  (s : @Embedding.System image descriptor) :
  paired s -> paired (load_known_faces_on face_encodings listing s).
Proof.
  intros H. unfold load_known_faces_on.
  enough (Hfold : forall s0, paired s0 ->
            paired (fold_left (load_file face_encodings) listing s0))
    by (apply (Hfold (Embedding.print _ s)); exact H).
  induction listing as [|[filename picture] listing IH]; intros s0 H0.
  - exact H0.
  - cbn [fold_left]. apply IH. unfold load_file.
    destruct (is_image_file filename); [|exact H0].
    destruct (face_encodings picture); [exact H0|].
    now apply remember_paired.
Qed.

Lemma add_employee_paired (name : string) (ticks : list (@tick image))
  (s : @Embedding.System image descriptor) :
  paired s -> paired (fst (add_employee face_encodings name ticks s)).
Proof.
  intros H. unfold add_employee.
  enough (Hloop : forall s0, paired s0 ->
            paired (fst (add_employee_loop face_encodings name ticks s0)))
    by (apply Hloop; exact H).
  induction ticks as [|t ticks IH]; intros s0 H0; [exact H0|].
  cbn [add_employee_loop].
  destruct (frame t) as [fr|]; [|exact H0].
  destruct (key t =? ord_c)%nat.
  - destruct (database (imwrite (name +:+ ".jpg") fr s0) !! (name +:+ ".jpg"))
      as [picture|]; [|exact H0].
    destruct (face_encodings picture).
    + apply IH. exact H0.
    + cbn [fst]. now apply remember_paired.
  - destruct (key t =? ord_q)%nat; [exact H0 | now apply IH].
Qed.

End WithOracles.

End EnrollmentFacts.


(** ** The trained-classifier matcher *)

Module ClassifierFacts.

Import Ledger Classifier LedgerFacts.

Lemma signals_app (e : Env) (evs : list hw_event) :
  List.filter is_led_on evs = [] ->
  length (List.filter is_led_on (hw e ++ evs)) = signals e.
Proof.
  intros H. unfold signals. now rewrite List.filter_app, H, app_nil_r.
Qed.

Section WithOracles.

Context {image region : Type}.
Variable to_gray : image -> image.
Variable detectMultiScale : image -> list rect.
Variable crop : image -> rect -> region.
Variable lbph_predict : list (region * Z) -> region -> Z * Q.
Variable untrained_text : string.

Abbreviation System := (@Classifier.System image region).
Abbreviation recognize_face :=
  (Classifier.recognize_face crop lbph_predict untrained_text).
Abbreviation recognize_faces :=
  (Classifier.recognize_faces crop lbph_predict untrained_text).
Abbreviation run_loop :=
  (Classifier.run_loop to_gray detectMultiScale crop lbph_predict
     untrained_text).
Abbreviation run :=
  (Classifier.run to_gray detectMultiScale crop lbph_predict untrained_text).

(** What is printed for a face shown to a recognizer without samples. *)
Definition untrained_report : string :=
  "Error during recognition: " +:+ untrained_text.

(** What [run] prints for the frames it goes through when every face is
    reported: one report per detected face, frame after frame, up to and
    with the frame on which q is pressed. *)
Fixpoint frame_reports (ticks : list (@tick image)) : list string :=
  match ticks with
  | [] => []
  | t :: rest =>
      map (fun _ => untrained_report) (detectMultiScale (to_gray (frame t)))
      ++ (if (key t =? ord_q)%nat then [] else frame_reports rest)
  end.

(** The pauses of the loop: one after every frame without q. *)
Fixpoint loop_pauses (ticks : list (@tick image)) : list hw_event :=
  match ticks with
  | [] => []
  | t :: rest =>
      if (key t =? ord_q)%nat then [] else Sleep 100 :: loop_pauses rest
  end.

(** Whether q is pressed on one of the frames. *)
Definition quits (ticks : list (@tick image)) : bool :=
  existsb (fun t => (key t =? ord_q)%nat) ticks.

Lemma recognize_face_untrained (gray : image) (r : rect) (now : datetime)
  (s : System) :
  recognizer s = [] ->
  recognize_face gray r now s = (print untrained_report s, None).
Proof.
  intros H. unfold Classifier.recognize_face, predict. now rewrite H.
Qed.

Lemma recognize_faces_untrained (gray : image) (rects : list rect)
  (now : datetime) (s : System) :
  recognizer s = [] ->
  recognizer (recognize_faces gray rects now s) = []
  /\ attendance_log (env (recognize_faces gray rects now s))
     = attendance_log (env s)
  /\ hw (env (recognize_faces gray rects now s)) = hw (env s)
  /\ stdout (env (recognize_faces gray rects now s))
     = stdout (env s) ++ map (fun _ => untrained_report) rects.
Proof.
  revert s. induction rects as [|r rects IH]; intros s H.
  - cbn. rewrite app_nil_r. now repeat split.
  - cbn [Classifier.recognize_faces map].
    rewrite (recognize_face_untrained gray r now s H). cbn [fst].
    destruct (IH (print untrained_report s) H) as (Hr & Hl & Hh & Hout).
    rewrite Hr, Hl, Hh, Hout. cbn. rewrite <- List.app_assoc.
    now repeat split.
Qed.

Lemma run_loop_untrained (ticks : list tick) (s : System) :
  recognizer s = [] ->
  recognizer (fst (run_loop ticks s)) = []
  /\ attendance_log (env (fst (run_loop ticks s))) = attendance_log (env s)
  /\ hw (env (fst (run_loop ticks s))) = hw (env s) ++ loop_pauses ticks
  /\ stdout (env (fst (run_loop ticks s)))
     = stdout (env s) ++ frame_reports ticks
  /\ snd (run_loop ticks s) = if quits ticks then Finished else Waiting.
Proof.
  revert s. induction ticks as [|t ticks IH]; intros s H.
  - cbn. rewrite !app_nil_r. now repeat split.
  - cbn [Classifier.run_loop frame_reports loop_pauses quits existsb].
    destruct (recognize_faces_untrained (to_gray (frame t))
                (detectMultiScale (to_gray (frame t))) (clock t) s H)
      as (Hr & Hl & Hh & Hout).
    destruct (key t =? ord_q)%nat; cbn [fst snd orb].
    + rewrite Hr, Hl, Hh, Hout, !app_nil_r. now repeat split.
    + destruct (IH (emit (Sleep 100)
                      (recognize_faces (to_gray (frame t))
                         (detectMultiScale (to_gray (frame t))) (clock t) s))
                  Hr) as (Hr' & Hl' & Hh' & Hout' & Hstop).
      rewrite Hr', Hl', Hh', Hout', Hstop.
      cbn [emit with_env env attendance_log hw stdout].
      rewrite Hl, Hh, Hout, <- !List.app_assoc. now repeat split.
Qed.

(** C9: a face shown to a recognizer that was never trained is no match
    and is reported on the console, [Error during recognition:] followed
    by the text of the error.  [run] is not stopped by it: it goes on
    frame after frame, printing one report per detected face and pausing
    after each frame, until q is pressed, and then ends by [break] with
    the clean-up, never by the exception; the attendance file is not
    touched and the only hardware events are the pauses and the
    clean-up. *)
Theorem run_untrained (s : System) :
  recognizer s = [] ->
  (forall gray r now,
     recognize_face gray r now s = (print untrained_report s, None))
  /\ (forall ticks,
        stdout (env (fst (run ticks s)))
        = stdout (env s)
          ++ ["Starting face recognition attendance system...";
              "Press 'q' to quit"]
          ++ frame_reports ticks
        /\ snd (run ticks s) = (if quits ticks then Finished else Waiting)
        /\ hw (env (fst (run ticks s)))
           = hw (env s) ++ loop_pauses ticks
             ++ (if quits ticks then [Cleanup] else [])
        /\ attendance_log (env (fst (run ticks s))) = attendance_log (env s)
        /\ recognizer (fst (run ticks s)) = []).
Proof.
  intros H. split.
  - intros gray r now. now apply recognize_face_untrained.
  - intros ticks. unfold Classifier.run.
    destruct (run_loop_untrained ticks
                (print "Press 'q' to quit"
                   (print "Starting face recognition attendance system..." s))
                H) as (Hr & Hl & Hh & Hout & Hstop).
    destruct (run_loop ticks _) as [s' stop]. cbn [fst snd] in *.
    subst stop.
    destruct (quits ticks); cbn [fst snd emit with_env env attendance_log hw
                                  stdout recognizer];
      rewrite ?Hr, Hl, Hh, Hout; cbn; rewrite <- ?List.app_assoc, ?app_nil_r;
      now repeat split.
Qed.

(** C10: a label predicted with a confidence under the threshold and
    missing from [employee_ids] resolves to the name [Unknown], and
    [mark_attendance] is called with it: a record for [Unknown] is written
    when the scan finds none for today, and a second such face on the same
    date writes nothing more. *)
Theorem unknown_label_is_marked (gray : image) (r : rect)
  (now later : datetime) (s : System) (id_num : Z) (confidence : Q) :
  recognizer s <> [] ->
  lbph_predict (recognizer s) (crop gray r) = (id_num, confidence) ->
  (confidence < threshold)%Q ->
  employee_ids s !! id_num = None ->
  let s1 := fst (recognize_face gray r now s) in
  recognize_face gray r now s
  = (with_env (fst (mark_attendance "Unknown" now (env s))) s, Some "Unknown")
  /\ (already_marked "Unknown" (strftime_date now) (env s) = false ->
      attendance_log (env s1)
      = Some (default EmptyString (attendance_log (env s))
              +:+ writerow (record "Unknown" now)))
  /\ (strftime_date later = strftime_date now ->
      attendance_log (env (fst (recognize_face gray r later s1)))
      = attendance_log (env s1)).
Proof.
  intros Hne Hpred Hconf Hmiss s1.
  assert (Hcall : forall t (s0 : System),
            recognizer s0 = recognizer s -> employee_ids s0 = employee_ids s ->
            recognize_face gray r t s0
            = (with_env (fst (mark_attendance "Unknown" t (env s0))) s0,
               Some "Unknown")).
  { intros t s0 Hr He. unfold Classifier.recognize_face, predict.
    rewrite Hr. destruct (recognizer s) as [|x l] eqn:E; [congruence|].
    rewrite Hpred, (proj2 (EmbeddingFacts.Qltb_lt _ _) Hconf), He, Hmiss.
    reflexivity. }
  assert (H1 : recognize_face gray r now s
               = (with_env (fst (mark_attendance "Unknown" now (env s))) s,
                  Some "Unknown")) by now apply Hcall.
  subst s1. rewrite H1. cbn [fst]. split; [reflexivity|]. split.
  - intros Hfresh. cbn [with_env env].
    now rewrite mark_attendance_log, mark_attendance_result, Hfresh.
  - intros Hdate. rewrite Hcall by reflexivity. cbn [fst with_env env].
    exact (proj1 (proj2 (mark_attendance_again "Unknown" now later (env s)
                           eq_refl Hdate))).
Qed.

(** *** Training *)

(** The entries of the listing [train_model] looks at. *)
Definition image_files (listing : list (string * image))
  : list (string * image) :=
  List.filter (fun entry => is_image_file (fst entry)) listing.

(** [enumerate(files, start=k)] *)
Fixpoint number_from (k : Z) (files : list (string * image))
  : list (Z * (string * image)) :=
  match files with
  | [] => []
  | f :: rest => (k, f) :: number_from (k + 1) rest
  end.

(** The first face rectangle found in a stored picture, cropped. *)
Definition first_face (file : image) : option region :=
  match detectMultiScale (to_gray file) with
  | r :: _ => Some (crop (to_gray file) r)
  | [] => None
  end.

Fixpoint pick {A B : Type} (f : A -> option B) (l : list A) : list B :=
  match l with
  | [] => []
  | x :: rest =>
      match f x with
      | Some y => y :: pick f rest
      | None => pick f rest
      end
  end.

Definition table_entry (item : Z * (string * image)) : Z * string :=
  (fst item, splitext_root (fst (snd item))).

Definition sample_face (item : Z * (string * image)) : option region :=
  first_face (snd (snd item)).

Definition sample_label (item : Z * (string * image)) : option Z :=
  option_map (fun _ => fst item) (first_face (snd (snd item))).

Definition sample_line (item : Z * (string * image)) : option string :=
  option_map (fun _ => "Processed: " +:+ splitext_root (fst (snd item)))
             (first_face (snd (snd item))).

Abbreviation train_file := (Classifier.train_file to_gray detectMultiScale crop).
Abbreviation train_model_on :=
  (Classifier.train_model_on to_gray detectMultiScale crop).

Lemma train_file_fold (listing : list (string * image)) (t0 : training) :
  id_map (fold_left train_file listing t0)
  = id_map t0
    ++ map table_entry (number_from (next_id t0) (image_files listing))
  /\ faces (fold_left train_file listing t0)
     = faces t0
       ++ pick sample_face (number_from (next_id t0) (image_files listing))
  /\ ids (fold_left train_file listing t0)
     = ids t0
       ++ pick sample_label (number_from (next_id t0) (image_files listing))
  /\ log (fold_left train_file listing t0)
     = log t0
       ++ pick sample_line (number_from (next_id t0) (image_files listing)).
Proof.
  revert t0. induction listing as [|[filename file] listing IH]; intros t0.
  - cbn. now rewrite !app_nil_r.
  - cbn [fold_left image_files List.filter fst].
    fold (image_files listing).
    unfold Classifier.train_file at 2 4 6 8.
    destruct (is_image_file filename) eqn:Himg; [|apply IH].
    cbn [number_from pick map].
    unfold sample_face at 1, sample_label at 1, sample_line at 1,
      first_face, table_entry at 1.
    cbn [fst snd].
    destruct (detectMultiScale (to_gray file)) as [|r others] eqn:Hdet;
      cbn [option_map];
      match goal with
      | |- context [fold_left _ listing ?t1] =>
          destruct (IH t1) as (H1 & H2 & H3 & H4)
      end;
      cbn [id_map faces ids log next_id] in H1, H2, H3, H4;
      rewrite H1, H2, H3, H4; now rewrite <- !app_assoc.
Qed.

(** What [train_model] builds.  Every [.jpg] or [.png] entry of the
    listing, with or without a face, gets the next label, from 1 on, in
    the order of the listing, and its line in the label table; a picture
    gives one sample, cut at its first face rectangle and carrying its
    label, or no sample when no face is found; the console gets one
    [Processed] line per sample and nothing for a picture without a
    face. *)
Lemma train_model_labels (listing : list (string * image)) (s : System) :
  let t := fold_left train_file listing training_start in
  let numbered := number_from 1 (image_files listing) in
  id_map t = map table_entry numbered
  /\ faces t = pick sample_face numbered
  /\ ids t = pick sample_label numbered
  /\ log t = pick sample_line numbered
  /\ employee_ids (train_model_on listing s) = list_to_map (map table_entry numbered)
  /\ id_map_file (train_model_on listing s)
     = Some (concat_lines (map id_map_line (map table_entry numbered))).
Proof.
  intros t numbered.
  destruct (train_file_fold listing training_start) as (H1 & H2 & H3 & H4).
  cbn [training_start id_map faces ids log next_id app] in H1, H2, H3, H4.
  fold t in H1, H2, H3, H4. fold numbered in H1, H2, H3, H4.
  repeat split; try assumption.
  - unfold Classifier.train_model_on. fold t.
    destruct (0 <? length (faces t))%nat; cbn [employee_ids]; now rewrite H1.
  - unfold Classifier.train_model_on. fold t.
    destruct (0 <? length (faces t))%nat; cbn [id_map_file]; now rewrite H1.
Qed.

End WithOracles.

(** *** A concrete classifier

    Pictures that are a number: [0] shows no face, any other number [n]
    shows two face rectangles, the first of width [n].  A cropped face is
    the width of its rectangle; the recognizer answers with the label of
    its first sample and the difference of the widths as confidence. *)

Definition toy_detect (picture : nat) : list rect :=
  match picture with
  | O => []
  | S _ => [(0, 0, Z.of_nat picture, Z.of_nat picture); (1, 1, 1, 1)]%Z
  end.

Definition toy_crop (picture : nat) (r : rect) : Z :=
  let '(_, _, w, _) := r in w.

Definition toy_predict (model : list (Z * Z)) (face : Z) : Z * Q :=
  match model with
  | (sample, label) :: _ => (label, inject_Z (Z.abs (sample - face)))
  | [] => ((-1)%Z, 0%Q)
  end.

Definition toy_system (model : list (Z * Z)) (names : gmap Z string)
  : @Classifier.System nat Z :=
  {| env := ledger_of [];
     database := ∅;
     recognizer := model;
     employee_ids := names;
     model_file := None;
     id_map_file := None |}.

Definition toy_tick (picture : nat) (k : nat) : @tick nat :=
  {| frame := picture; key := k; clock := morning |}.

(** The text of the error as an OpenCV 4.8 build gives it. *)
Definition toy_text : string :=
  "OpenCV(4.8.0) /io/opencv_contrib/modules/face/src/lbph_faces.cpp:406: "
  +:+ "error: (-5:Bad argument) This LBPH model is not computed yet. "
  +:+ "Did you call the train method? in function 'predict'" +:+ chr LF.

Lemma run_untrained_witness :
  recognizer (toy_system [] ∅) = []
  /\ stdout
       (env (fst (Classifier.run id toy_detect toy_crop toy_predict toy_text
                    [toy_tick 4 0; toy_tick 0 0; toy_tick 4 ord_q;
                     toy_tick 4 0] (toy_system [] ∅))))
     = ["Starting face recognition attendance system...";
        "Press 'q' to quit";
        "Error during recognition: " +:+ toy_text;
        "Error during recognition: " +:+ toy_text;
        "Error during recognition: " +:+ toy_text;
        "Error during recognition: " +:+ toy_text]
  /\ snd (Classifier.run id toy_detect toy_crop toy_predict toy_text
            [toy_tick 4 0; toy_tick 0 0; toy_tick 4 ord_q; toy_tick 4 0]
            (toy_system [] ∅))
     = Finished.
Proof.
  split; [reflexivity|].
  destruct (proj2 (run_untrained id toy_detect toy_crop toy_predict toy_text
                     (toy_system [] ∅) eq_refl)
              [toy_tick 4 0; toy_tick 0 0; toy_tick 4 ord_q; toy_tick 4 0])
    as (Hout & Hend & _).
  split; [exact Hout | exact Hend].
Defined.

Lemma unknown_label_is_marked_witness :
  Classifier.recognize_face toy_crop toy_predict toy_text 4%nat
    (0, 0, 4, 4)%Z morning (toy_system [(4, 3)%Z] {[1%Z := "alice"]})
  = (with_env (fst (mark_attendance "Unknown" morning (ledger_of [])))
       (toy_system [(4, 3)%Z] {[1%Z := "alice"]}), Some "Unknown").
Proof.
  refine (proj1 (unknown_label_is_marked toy_crop toy_predict toy_text 4%nat
                   (0, 0, 4, 4)%Z morning noon
                   (toy_system [(4, 3)%Z] {[1%Z := "alice"]}) 3%Z 0%Q
                   _ eq_refl _ eq_refl)).
  - discriminate.
  - reflexivity.
Defined.

(** C7 fails on a directory with a picture of alice and a faceless
    picture of bob: bob gets no sample, yet he gets the label [2] in the
    table that is kept in memory and written to the table file, beside a
    model trained on label [1] only, and nothing is printed about his
    picture.  On the same directory [load_known_faces] of main.py leaves
    bob out and prints the warning. *)
Theorem train_model_keeps_faceless_employee :
  let listing := [("alice.jpg", 4%nat); ("bob.jpg", 0%nat)] in
  let s' := train_model_on id toy_detect toy_crop listing (toy_system [] ∅) in
  let m := Embedding.load_known_faces_on EmbeddingFacts.toy_encodings listing
             (EmbeddingFacts.toy_store ∅ [] []) in
  recognizer s' = [(4, 1)%Z]
  /\ model_file s' = Some [(4, 1)%Z]
  /\ employee_ids s' !! 1%Z = Some "alice"
  /\ employee_ids s' !! 2%Z = Some "bob"
  /\ id_map_file s'
     = Some ("1,alice" +:+ chr LF +:+ "2,bob" +:+ chr LF)
  /\ stdout (env s')
     = ["Training model with employee database...";
        "Processed: alice";
        "Model trained and saved with 1 faces from 2 employees."]
  /\ Embedding.known_face_names m = ["alice"]
  /\ stdout (Embedding.env m)
     = ["Loading employee database...";
        "Loaded: alice";
        "Warning: No face found in bob.jpg";
        "Database loaded. 1 employees registered."].
Proof. vm_compute. repeat split. Qed.

End ClassifierFacts.


(** ** More on the ledger *)

Module LedgerMore.

Import TextFacts Ledger LedgerFacts.

#[local] Arguments String.append !_ _ /.

(** The level a GPIO line is left at by a trace: the last level written
    to it; [GPIO.cleanup()] releases every line. *)
Fixpoint line_level (pin : nat) (start : option level) (trace : list hw_event)
  : option level :=
  match trace with
  | [] => start
  | GpioOutput p lv :: rest =>
      line_level pin (if (p =? pin)%nat then Some lv else start) rest
  | Sleep _ :: rest => line_level pin start rest
  | Cleanup :: rest => line_level pin None rest
  end.

Lemma line_level_app (pin : nat) (start : option level)
  (a b : list hw_event) :
  line_level pin start (a ++ b) = line_level pin (line_level pin start a) b.
Proof.
  revert start. induction a as [|ev a IH]; intros start; [reflexivity|].
  destruct ev; cbn [app line_level]; apply IH.
Qed.

Lemma signals_pulse (e : Env) (evs : list hw_event) :
  hw e = evs ++ pulse -> signals e = S (length (List.filter is_led_on evs)).
Proof.
  intros H. unfold signals. rewrite H, List.filter_app, length_app.
  cbn. lia.
Qed.

(** A second call on the same date, for a name without double quote, CR
    or LF, is a pure report: it answers [False] and only prints. *)
Theorem mark_attendance_idempotent (name : string) (now later : datetime)
  (e : Env) :
  all_chars scannable name = true ->
  strftime_date later = strftime_date now ->
  let e1 := fst (mark_attendance name now e) in
  mark_attendance name later e1
  = (print (name +:+ " already marked attendance today") e1, false).
Proof.
  intros Hn Hd e1. unfold mark_attendance at 1.
  rewrite Hd. subst e1. now rewrite marked_after.
Qed.

Lemma mark_attendance_idempotent_witness :
  mark_attendance "Ali" noon (fst (mark_attendance "Ali" morning (ledger_of [])))
  = (print "Ali already marked attendance today"
       (fst (mark_attendance "Ali" morning (ledger_of []))), false).
Proof.
  exact (mark_attendance_idempotent "Ali" morning noon (ledger_of [])
           eq_refl eq_refl).
Defined.

(** The feedback signal goes with the record: one more signal when a
    record is written, after which the LED and the buzzer lines are low
    again; no hardware event at all when the call answers [False]. *)
Theorem mark_attendance_signal (name : string) (now : datetime) (e : Env) :
  let e' := fst (mark_attendance name now e) in
  if snd (mark_attendance name now e)
  then signals e' = S (signals e)
       /\ (forall start, line_level led_pin start (hw e') = Some LOW)
       /\ (forall start, line_level buzzer_pin start (hw e') = Some LOW)
  else hw e' = hw e.
Proof.
  intros e'. subst e'. pose proof (mark_attendance_hw name now e) as H.
  destruct (snd (mark_attendance name now e)).
  - split; [|split].
    + now rewrite (signals_pulse _ _ H).
    + intros start. now rewrite H, line_level_app.
    + intros start. now rewrite H, line_level_app.
  - exact H.
Qed.

(** When the attendance file is missing the call always writes: the file
    is created and holds the one record, without a header row. *)
Theorem mark_attendance_missing_file (name : string) (now : datetime)
  (e : Env) :
  attendance_log e = None ->
  snd (mark_attendance name now e) = true
  /\ attendance_log (fst (mark_attendance name now e))
     = Some (writerow (record name now)).
Proof.
  intros H.
  assert (Hr : snd (mark_attendance name now e) = true).
  { rewrite mark_attendance_result. unfold already_marked. now rewrite H. }
  split; [exact Hr|]. now rewrite mark_attendance_log, Hr, H.
Qed.

Lemma mark_attendance_missing_file_witness :
  snd (mark_attendance "Ali" morning
         {| attendance_log := None; hw := []; stdout := [] |}) = true.
Proof.
  exact (proj1 (mark_attendance_missing_file "Ali" morning
                  {| attendance_log := None; hw := []; stdout := [] |}
                  eq_refl)).
Defined.

(** A needle whose first character is nowhere in the hay is not in it. *)
Lemma str_in_first_char (c : ascii) (rest hay : string) :
  all_chars (fun x => negb (Ascii.eqb x c)) hay = true ->
  str_in (String c rest) hay = false.
Proof.
  induction hay as [|x hay IH]; intros H.
  - reflexivity.
  - cbn [all_chars] in H. apply andb_true_iff in H as [Hx Hh].
    rewrite str_in_unfold, (IH Hh), orb_false_r.
    cbn [String.prefix]. destruct (ascii_dec c x) as [->|]; [|reflexivity].
    now rewrite Ascii.eqb_refl in Hx.
Qed.

Lemma header_line_has_no_date (now : datetime) :
  str_in (strftime_date now) ("Name,Date,Time" +:+ chr LF) = false.
Proof.
  unfold strftime_date, pad4. cbn [String.append].
  apply str_in_first_char. unfold digit.
  pose proof (Nat.mod_upper_bound (year now / 1000) 10 ltac:(discriminate)) as H.
  destruct ((year now / 1000) mod 10) as [|k]; [reflexivity|].
  do 9 (destruct k as [|k]; [reflexivity|]). lia.
Qed.

(** On a file that holds the header row only, every call writes its
    record, also for a name that occurs in the header (Name, Date, ...):
    the header holds no date. *)
Theorem mark_attendance_fresh_ledger (name : string) (now : datetime)
  (e : Env) :
  attendance_log e = Some (render [header]) ->
  snd (mark_attendance name now e) = true
  /\ attendance_log (fst (mark_attendance name now e))
     = Some (render [header; record name now]).
Proof.
  intros H.
  assert (Hr : snd (mark_attendance name now e) = true).
  { rewrite mark_attendance_result. unfold already_marked. rewrite H.
    change (readlines (render [header])) with ["Name,Date,Time" +:+ chr LF].
    cbn [existsb]. now rewrite header_line_has_no_date, andb_false_r. }
  split; [exact Hr|].
  rewrite mark_attendance_log, Hr, H. cbn [default]. f_equal.
  change [header; record name now] with ([header] ++ [record name now]).
  rewrite render_app.
  change (render [record name now])
    with (writerow (record name now) +:+ EmptyString).
  now rewrite app_empty_r.
Qed.

Lemma mark_attendance_fresh_ledger_witness :
  snd (mark_attendance "Date" morning (ledger_of [])) = true.
Proof.
  exact (proj1 (mark_attendance_fresh_ledger "Date" morning (ledger_of [])
                  eq_refl)).
Defined.

(** *** Reading back what was written *)

(** A field the writer leaves as it is. *)
Definition plain_field (f : string) : bool := negb (needs_quote f).

(** A row of plain fields other than the row of one empty field. *)
Definition plain_row (row : list string) : bool :=
  forallb plain_field row
  && negb (match row with [EmptyString] => true | _ => false end).

Lemma writerow_plain (row : list string) :
  plain_row row = true -> writerow row = join_fields row +:+ CRLF.
Proof.
  unfold plain_row. intros [Hf Hne]%andb_true_iff.
  assert (Hmap : map csv_field row = row).
  { clear Hne. induction row as [|f row IH]; [reflexivity|].
    cbn [forallb] in Hf. apply andb_true_iff in Hf as [Hx Hrow].
    cbn [map]. rewrite (IH Hrow). f_equal.
    apply csv_field_plain. now apply negb_true_iff in Hx. }
  destruct row as [|f [|g row]].
  - reflexivity.
  - destruct f; [discriminate|]. unfold writerow. now rewrite Hmap.
  - now rewrite writerow_fields, Hmap.
Qed.

Lemma join_fields_inline (row : list string) :
  forallb plain_field row = true -> all_chars inline (join_fields row) = true.
Proof.
  induction row as [|f row IH]; intros H; [reflexivity|].
  cbn [forallb] in H. apply andb_true_iff in H as [Hf Hrow].
  assert (Hi : all_chars inline f = true).
  { apply plain_inline. now apply negb_true_iff in Hf. }
  destruct row as [|g row]; [exact Hi|].
  change (join_fields (f :: g :: row))
    with (f +:+ chr COMMA +:+ join_fields (g :: row)).
  rewrite !all_chars_app, Hi, (IH Hrow). reflexivity.
Qed.

Lemma universal_newlines_row_then (r rest : string) :
  all_chars inline r = true ->
  forall f, universal_newlines f (r +:+ CRLF +:+ rest)
            = r +:+ chr LF +:+ universal_newlines false rest.
Proof.
  induction r as [|c r IH]; simpl; intros H f.
  - reflexivity.
  - apply andb_true_iff in H as [Hc Hr]. unfold inline in Hc.
    apply andb_true_iff in Hc as [H1 H2].
    apply negb_true_iff in H1, H2. rewrite H1, H2. now rewrite IH.
Qed.

Lemma split_lines_row_then (r rest : string) :
  all_chars inline r = true ->
  forall cur, split_lines cur (r +:+ chr LF +:+ rest)
              = (cur +:+ r +:+ chr LF) :: split_lines EmptyString rest.
Proof.
  induction r as [|c r IH]; simpl; intros H cur.
  - reflexivity.
  - apply andb_true_iff in H as [Hc Hr]. unfold inline in Hc.
    apply andb_true_iff in Hc as [_ H2]. apply negb_true_iff in H2.
    rewrite H2, (IH Hr). now rewrite app_assoc.
Qed.

(** Reading a file made of plain rows gives the rows back, one line per
    row in the order they were written: the fields joined by commas, the
    line end as LF. *)
Theorem readlines_render (rows : list (list string)) :
  forallb plain_row rows = true ->
  readlines (render rows)
  = map (fun row => join_fields row +:+ chr LF) rows.
Proof.
  unfold readlines. induction rows as [|row rows IH]; intros H.
  - reflexivity.
  - cbn [forallb] in H. apply andb_true_iff in H as [Hrow Hrows].
    cbn [render map]. rewrite (writerow_plain row Hrow), app_assoc.
    pose proof Hrow as [Hf _]%andb_true_iff.
    rewrite (universal_newlines_row_then _ _ (join_fields_inline row Hf)).
    rewrite (split_lines_row_then _ _ (join_fields_inline row Hf)).
    now rewrite (IH Hrows).
Qed.

Lemma readlines_render_witness :
  readlines (render [header; ["Ali"; "2024-01-05"; "08:00:00"]])
  = ["Name,Date,Time" +:+ chr LF; "Ali,2024-01-05,08:00:00" +:+ chr LF].
Proof.
  exact (readlines_render [header; ["Ali"; "2024-01-05"; "08:00:00"]] eq_refl).
Defined.

(** *** The date key *)

Lemma digit_inj (a b : nat) :
  (a < 10)%nat -> (b < 10)%nat -> digit a = digit b -> a = b.
Proof.
  intros Ha Hb H. unfold digit in H.
  rewrite !Nat.mod_small in H by assumption.
  apply (f_equal nat_of_ascii) in H.
  rewrite !nat_ascii_embedding in H by lia. lia.
Qed.

Lemma pad2_inj (a b : nat) :
  (a < 100)%nat -> (b < 100)%nat -> pad2 a = pad2 b -> a = b.
Proof.
  intros Ha Hb H. unfold pad2 in H. injection H as H1 H2.
  assert (Hda : (a / 10 < 10)%nat) by (apply Nat.Div0.div_lt_upper_bound; lia).
  assert (Hdb : (b / 10 < 10)%nat) by (apply Nat.Div0.div_lt_upper_bound; lia).
  apply (digit_inj _ _ Hda Hdb) in H1.
  unfold digit in H2.
  apply (f_equal nat_of_ascii) in H2.
  pose proof (Nat.mod_upper_bound a 10 ltac:(discriminate)).
  pose proof (Nat.mod_upper_bound b 10 ltac:(discriminate)).
  rewrite !nat_ascii_embedding in H2 by lia.
  rewrite (Nat.div_mod_eq a 10), (Nat.div_mod_eq b 10). lia.
Qed.

Lemma pad4_inj (a b : nat) :
  (a < 100 * 100)%nat -> (b < 100 * 100)%nat -> pad4 a = pad4 b -> a = b.
Proof.
  intros Ha Hb H. unfold pad4, pad2 in H. injection H as H1 H2 H3 H4.
  assert (Hta : (a / 1000 < 10)%nat) by (apply Nat.Div0.div_lt_upper_bound; lia).
  assert (Htb : (b / 1000 < 10)%nat) by (apply Nat.Div0.div_lt_upper_bound; lia).
  apply (digit_inj _ _ Hta Htb) in H1.
  unfold digit in H2, H3, H4.
  apply (f_equal nat_of_ascii) in H2, H3, H4.
  change (fst (Nat.divmod a 99 0 99)) with (a / 100)%nat in H2.
  change (fst (Nat.divmod b 99 0 99)) with (b / 100)%nat in H2.
  change (fst (Nat.divmod a 9 0 9)) with (a / 10)%nat in H3.
  change (fst (Nat.divmod b 9 0 9)) with (b / 10)%nat in H3.
  pose proof (Nat.mod_upper_bound (a / 100) 10 ltac:(discriminate)).
  pose proof (Nat.mod_upper_bound (b / 100) 10 ltac:(discriminate)).
  pose proof (Nat.mod_upper_bound (a / 10) 10 ltac:(discriminate)).
  pose proof (Nat.mod_upper_bound (b / 10) 10 ltac:(discriminate)).
  pose proof (Nat.mod_upper_bound a 10 ltac:(discriminate)).
  pose proof (Nat.mod_upper_bound b 10 ltac:(discriminate)).
  rewrite !nat_ascii_embedding in H2, H3, H4 by lia.
  assert (E2 : ((a / 100) mod 10 = (b / 100) mod 10)%nat) by lia.
  assert (E3 : ((a / 10) mod 10 = (b / 10) mod 10)%nat) by lia.
  assert (E4 : (a mod 10 = b mod 10)%nat) by lia.
  clear H2 H3 H4.
  pose proof (Nat.div_mod_eq a 10). pose proof (Nat.div_mod_eq b 10).
  pose proof (Nat.div_mod_eq (a / 10) 10). pose proof (Nat.div_mod_eq (b / 10) 10).
  pose proof (Nat.div_mod_eq (a / 100) 10). pose proof (Nat.div_mod_eq (b / 100) 10).
  rewrite !Nat.Div0.div_div in *.
  change (10 * 10)%nat with 100%nat in *.
  change (100 * 10)%nat with 1000%nat in *.
  lia.
Qed.

Lemma app_take (a b c d : string) :
  String.length a = String.length c -> a +:+ b = c +:+ d -> a = c /\ b = d.
Proof.
  revert c. induction a as [|x a IH]; intros [|y c] Hlen H;
    try discriminate.
  - now split.
  - cbn in H. injection H as -> H. injection Hlen as Hlen.
    destruct (IH c Hlen H) as [-> ->]. now split.
Qed.

(** A calendar day as the clock gives it. *)
Definition calendar (now : datetime) : Prop :=
  (year now < 100 * 100)%nat /\ (month now < 100)%nat /\ (day now < 100)%nat.

(** The date string is a faithful key of the day: two instants get the
    same date string exactly when they have the same year, month and
    day. *)
Theorem strftime_date_same_day (a b : datetime) :
  calendar a -> calendar b ->
  (strftime_date a = strftime_date b
   <-> year a = year b /\ month a = month b /\ day a = day b).
Proof.
  intros (Hya & Hma & Hda) (Hyb & Hmb & Hdb). split.
  - unfold strftime_date. intros H.
    apply app_take in H as [Hy H]; [|reflexivity].
    apply app_take in H as [_ H]; [|reflexivity].
    apply app_take in H as [Hm H]; [|reflexivity].
    apply app_take in H as [_ Hd]; [|reflexivity].
    split; [|split].
    + now apply pad4_inj.
    + now apply pad2_inj.
    + now apply pad2_inj.
  - unfold strftime_date. now intros (-> & -> & ->).
Qed.

Lemma strftime_date_same_day_witness :
  strftime_date morning = strftime_date noon
  <-> year morning = year noon /\ month morning = month noon
      /\ day morning = day noon.
Proof.
  apply (strftime_date_same_day morning noon); unfold calendar; cbn; lia.
Defined.

(** *** A record anywhere in the file *)

Lemma universal_newlines_around_row (a r b : string) :
  all_chars inline r = true ->
  forall f, exists a',
    universal_newlines f (a +:+ r +:+ CRLF +:+ b)
    = a' +:+ r +:+ chr LF +:+ universal_newlines false b.
Proof.
  intros Hr.
  pose proof (universal_newlines_row_then r b Hr) as Hrow.
  remember (r +:+ CRLF +:+ b) as x eqn:Hx.
  remember (r +:+ chr LF +:+ universal_newlines false b) as y eqn:Hy.
  clear Hx Hy. induction a as [|c a IH]; intros f.
  - exists EmptyString. apply Hrow.
  - simpl. destruct (Ascii.eqb c CR).
    + destruct (IH true) as [a' ->]. now exists (String LF a').
    + destruct (Ascii.eqb c LF).
      * destruct f.
        -- destruct (IH false) as [a' ->]. now exists a'.
        -- destruct (IH false) as [a' ->]. now exists (String LF a').
      * destruct (IH false) as [a' ->]. now exists (String c a').
Qed.

Lemma split_lines_finds_row_inside (a r b : string) :
  all_chars inline r = true ->
  forall cur, exists line,
    In line (split_lines cur (a +:+ r +:+ chr LF +:+ b)) /\ occurs r line.
Proof.
  intros Hr.
  pose proof (split_lines_row_then r b Hr) as Hrow.
  remember (r +:+ chr LF +:+ b) as x eqn:Hx. clear Hx.
  induction a as [|c a IH]; intros cur.
  - cbn [String.append]. rewrite Hrow.
    exists (cur +:+ r +:+ chr LF).
    split; [now left | apply occurs_wrap, occurs_refl].
  - simpl. destruct (Ascii.eqb c LF).
    + destruct (IH EmptyString) as (line & Hin & Hocc).
      exists line. split; [now right | exact Hocc].
    + apply IH.
Qed.

(** Whoever has a record of today in the file, wherever it stands and
    whatever else the file holds, is not recorded again: for a name
    without double quote, CR or LF the call answers [False] and only
    prints. *)
Theorem recorded_today_is_not_marked_again (name : string)
  (earlier now : datetime) (before after : string) (e : Env) :
  all_chars scannable name = true ->
  attendance_log e
  = Some (before +:+ writerow (record name earlier) +:+ after) ->
  strftime_date now = strftime_date earlier ->
  mark_attendance name now e
  = (print (name +:+ " already marked attendance today") e, false).
Proof.
  intros Hn Hlog Hd.
  assert (Hm : already_marked name (strftime_date now) e = true).
  { unfold already_marked. rewrite Hlog, writerow_record, app_assoc.
    unfold readlines.
    destruct (universal_newlines_around_row before
                (record_text name earlier) after
                (record_text_inline name earlier Hn) false) as [a' ->].
    destruct (split_lines_finds_row_inside a' (record_text name earlier)
                (universal_newlines false after)
                (record_text_inline name earlier Hn) EmptyString)
      as (line & Hin & Hocc).
    apply existsb_exists. exists line. split; [exact Hin|].
    apply andb_true_iff. split; apply str_in_occurs.
    - exact (occurs_trans _ _ _ (record_text_holds_name name earlier Hn) Hocc).
    - rewrite Hd.
      exact (occurs_trans _ _ _ (record_text_holds_date name earlier) Hocc). }
  unfold mark_attendance. now rewrite Hm.
Qed.

Lemma recorded_today_is_not_marked_again_witness :
  snd (mark_attendance "Ali" noon
         (ledger_of [record "Ali" morning; record "Bob" morning])) = false.
Proof.
  rewrite (recorded_today_is_not_marked_again "Ali" morning noon
             (writerow header) (writerow (record "Bob" morning))
             (ledger_of [record "Ali" morning; record "Bob" morning])
             eq_refl eq_refl eq_refl).
  reflexivity.
Defined.

End LedgerMore.


(** ** File names *)

Module FilesFacts.

Import TextFacts.

#[local] Arguments String.append !_ _ /.

Lemma rev_app_rev_app (s a b : string) :
  String.rev_app (String.rev_app s a) b = String.rev_app a (s +:+ b).
Proof.
  revert a b. induction s as [|c s IH]; intros a b; [reflexivity|].
  cbn [String.rev_app]. now rewrite IH.
Qed.

Lemma rev_involutive (s : string) : String.rev (String.rev s) = s.
Proof.
  unfold String.rev. rewrite rev_app_rev_app. cbn [String.rev_app].
  apply app_empty_r.
Qed.

Lemma rev_app_append (a b acc : string) :
  String.rev_app (a +:+ b) acc = String.rev_app b (String.rev_app a acc).
Proof.
  revert acc. induction a as [|c a IH]; intros acc; [reflexivity|].
  cbn [String.append String.rev_app]. apply IH.
Qed.

Lemma picture_name (name : string) :
  is_image_file (name +:+ ".jpg") = true
  /\ splitext_root (name +:+ ".jpg")
     = if all_chars is_dot name then name +:+ ".jpg" else name.
Proof.
  split.
  - unfold is_image_file, ends_with, String.rev.
    rewrite rev_app_append. cbn. now destruct (String.rev_app name EmptyString).
  - unfold splitext_root, String.rev. rewrite rev_app_append.
    cbn [String.rev_app split_at_last_dot is_dot Ascii.eqb Bool.eqb].
    fold (String.rev name). fold (String.rev (String.rev name)).
    now rewrite rev_involutive.
Qed.

(** When [name.jpg] can name an entry of the directory (no [/] in the
    name), the name [add_employee] gives to the picture of [name] is the
    name of an image file, and [load_known_faces] and [train_model] read
    the employee's name back from it, unless the name is empty or made of
    dots only: then the whole file name, extension included, is taken as
    the name. *)
Theorem picture_name_round_trip (name : string) :
  is_entry_name (name +:+ ".jpg") = true ->
  is_image_file (name +:+ ".jpg") = true
  /\ splitext_root (name +:+ ".jpg")
     = if all_chars is_dot name then name +:+ ".jpg" else name.
Proof. intros _. exact (picture_name name). Qed.

Lemma picture_name_round_trip_witness :
  is_entry_name ("j.doe" +:+ ".jpg") = true
  /\ is_image_file ("j.doe" +:+ ".jpg") = true
  /\ splitext_root ("j.doe" +:+ ".jpg") = "j.doe".
Proof.
  split; [reflexivity|]. exact (picture_name_round_trip "j.doe" eq_refl).
Defined.

End FilesFacts.

(** ** More on the embedding matcher *)

Module EmbeddingMore.

Import TextFacts Ledger LedgerFacts Embedding EmbeddingFacts EnrollmentFacts.

#[local] Arguments String.append !_ _ /.

(** The text of the attendance file, empty when the file is missing. *)
Definition content (e : Env) : string :=
  default EmptyString (attendance_log e).

(** [written names e e']: from [e] to [e'] the file only grew, by the
    records of a list in which every name is one of [names], and one
    signal was given per record. *)
Definition written (names : list string) (e e' : Env) : Prop :=
  exists records,
    content e' = content e +:+ render records
    /\ Forall (fun r => exists name now, r = record name now /\ name ∈ names)
              records
    /\ signals e' = (signals e + length records)%nat.

Lemma written_refl (names : list string) (e : Env) : written names e e.
Proof.
  exists []. cbn. rewrite app_empty_r. repeat split; [constructor | lia].
Qed.

Lemma written_trans (names : list string) (e1 e2 e3 : Env) :
  written names e1 e2 -> written names e2 e3 -> written names e1 e3.
Proof.
  intros (r1 & H1 & F1 & S1) (r2 & H2 & F2 & S2). exists (r1 ++ r2).
  repeat split.
  - now rewrite H2, H1, render_app, app_assoc.
  - now apply Forall_app.
  - rewrite S2, S1, length_app. lia.
Qed.

Lemma written_same (names : list string) (e e' : Env) :
  attendance_log e' = attendance_log e ->
  signals e' = signals e ->
  written names e e'.
Proof.
  intros Hl Hs. exists []. unfold content. rewrite Hl, Hs. cbn.
  rewrite app_empty_r. repeat split; [constructor | lia].
Qed.

Lemma written_mark (names : list string) (name : string) (now : datetime)
  (e : Env) :
  name ∈ names -> written names e (fst (mark_attendance name now e)).
Proof.
  intros Hin.
  pose proof (mark_attendance_log name now e) as Hlog.
  pose proof (mark_attendance_hw name now e) as Hhw.
  destruct (snd (mark_attendance name now e)).
  - exists [record name now]. repeat split.
    + unfold content. rewrite Hlog. cbn. now rewrite app_empty_r.
    + constructor; [|constructor].
      exists name, now. split; [reflexivity | exact Hin].
    + rewrite (LedgerMore.signals_pulse _ _ Hhw). unfold signals. cbn. lia.
  - apply written_same; [exact Hlog|]. unfold signals. now rewrite Hhw.
Qed.

Section WithOracles.

Context {image descriptor : Type}.
Variable face_encodings : image -> list descriptor.
Variable shrink : image -> image.
Variable distance : descriptor -> descriptor -> Q.

Abbreviation System := (@Embedding.System image descriptor).
Abbreviation recognize_face := (Embedding.recognize_face distance).
Abbreviation recognize_faces := (Embedding.recognize_faces distance).
Abbreviation run_loop := (Embedding.run_loop face_encodings shrink distance).
Abbreviation run := (Embedding.run face_encodings shrink distance).

(** [same_store s s']: the directory and the two lists are those of [s]. *)
Definition same_store (s s' : System) : Prop :=
  database s' = database s
  /\ known_face_encodings s' = known_face_encodings s
  /\ known_face_names s' = known_face_names s.

(** [step s s']: what recognition may do to the state. *)
Definition step (s s' : System) : Prop :=
  same_store s s' /\ written (known_face_names s) (env s) (env s').

Lemma step_refl (s : System) : step s s.
Proof. split; [now repeat split | apply written_refl]. Qed.

Lemma step_trans (s1 s2 s3 : System) : step s1 s2 -> step s2 s3 -> step s1 s3.
Proof.
  intros [(D1 & E1 & N1) W1] [(D2 & E2 & N2) W2]. split.
  - repeat split; congruence.
  - rewrite N1 in W2. exact (written_trans _ _ _ _ W1 W2).
Qed.

Lemma step_env (s : System) (e : Env) :
  attendance_log e = attendance_log (env s) ->
  signals e = signals (env s) ->
  step s (with_env e s).
Proof.
  intros Hl Hs. split; [now repeat split|]. now apply written_same.
Qed.

Lemma recognize_face_step (face : descriptor) (now : datetime) (s : System) :
  match recognize_face face now s with
  | inl _ => True
  | inr (s', shown) =>
      step s s' /\ (shown = "Unknown" \/ shown ∈ known_face_names s)
  end.
Proof.
  unfold Embedding.recognize_face.
  destruct (0 <? _)%nat; [|split; [apply step_refl | now left]].
  destruct (argmin _) as [i|]; [|exact I].
  destruct (compare_faces _ _ _ _ !! i) as [[|]|]; [| |exact I].
  - destruct (known_face_names s !! i) as [name|] eqn:Hname; [|exact I].
    apply list_elem_of_lookup_2 in Hname. split; [|now right].
    split; [now repeat split|]. now apply written_mark.
  - split; [apply step_refl | now left].
Qed.

Lemma recognize_faces_step (faces : list descriptor) (now : datetime)
  (s : System) :
  step s (fst (recognize_faces faces now s)).
Proof.
  revert s. induction faces as [|face faces IH]; intros s.
  - apply step_refl.
  - cbn [Embedding.recognize_faces].
    pose proof (recognize_face_step face now s) as H.
    destruct (recognize_face face now s) as [e|[s' shown]].
    + apply step_refl.
    + destruct H as [H _]. exact (step_trans _ _ _ H (IH s')).
Qed.

Lemma run_loop_step (ticks : list tick) (s : System) :
  step s (fst (run_loop ticks s)).
Proof.
  revert s. induction ticks as [|t ticks IH]; intros s.
  - apply step_refl.
  - cbn [Embedding.run_loop].
    destruct (frame t) as [fr|]; [|now apply step_env].
    pose proof (recognize_faces_step (face_encodings (shrink fr)) (clock t) s)
      as H.
    destruct (recognize_faces _ (clock t) s) as [s' [e|]]; cbn [fst] in *;
      [exact H|].
    destruct (key t =? ord_q)%nat; [exact H|].
    refine (step_trans _ _ _ H (step_trans _ _ _ _ (IH _))).
    apply step_env; [reflexivity|].
    apply ClassifierFacts.signals_app. reflexivity.
Qed.

Lemma run_step (ticks : list tick) (s : System) : step s (fst (run ticks s)).
Proof.
  unfold Embedding.run.
  set (s0 := Embedding.print _ (Embedding.print _ s)).
  assert (H0 : step s s0).
  { refine (step_trans _ (Embedding.print _ s) _ _ _);
      unfold Embedding.print; apply step_env; reflexivity. }
  pose proof (run_loop_step ticks s0) as H.
  destruct (run_loop ticks s0) as [s' stop]. cbn [fst] in H.
  assert (Hall : step s s') by exact (step_trans _ _ _ H0 H).
  assert (Hc : step s' (cleanup s')).
  { apply step_env; [reflexivity|].
    apply ClassifierFacts.signals_app. reflexivity. }
  destruct stop; cbn [fst]; [exact Hall | |];
    exact (step_trans _ _ _ Hall Hc).
Qed.

(** Recognition reads the identity store and never changes it: after
    [run], whatever the camera showed, the employee directory and the two
    lists of the store are what they were. *)
Theorem run_keeps_store (ticks : list tick) (s : System) :
  database (fst (run ticks s)) = database s
  /\ known_face_encodings (fst (run ticks s)) = known_face_encodings s
  /\ known_face_names (fst (run ticks s)) = known_face_names s.
Proof. exact (proj1 (run_step ticks s)). Qed.

(** [run] only adds records to the attendance file, every one of them
    for an enrolled name (never for [Unknown], unless that is an enrolled
    name), and gives exactly one signal per record. *)
Theorem run_records_enrolled_names (ticks : list tick) (s : System) :
  exists records,
    content (env (fst (run ticks s)))
    = content (env s) +:+ render records
    /\ Forall (fun r => exists name now,
                 r = record name now /\ name ∈ known_face_names s) records
    /\ signals (env (fst (run ticks s)))
       = (signals (env s) + length records)%nat.
Proof. exact (proj2 (run_step ticks s)). Qed.

End WithOracles.

End EmbeddingMore.


(** ** More on the store of [main.py]: loading, enrolling, starting *)

Module StoreMore.

Import TextFacts Ledger LedgerFacts Embedding EmbeddingFacts EnrollmentFacts
  EmbeddingMore.
Import ClassifierFacts(image_files, pick).

Lemma pick_app {A B : Type} (f : A -> option B) (l1 l2 : list A) :
  pick f (l1 ++ l2) = pick f l1 ++ pick f l2.
Proof.
  induction l1 as [|x l1 IH]; [reflexivity|].
  cbn [app pick]. destruct (f x); [cbn; f_equal|]; exact IH.
Qed.

Lemma pick_elem {A B : Type} (f : A -> option B) (l : list A) (x : A) (y : B) :
  x ∈ l -> f x = Some y -> y ∈ pick f l.
Proof.
  intros Hin Hf. induction l as [|z l IH]; [now apply elem_of_nil in Hin|].
  apply elem_of_cons in Hin as [<-|Hin].
  - cbn [pick]. rewrite Hf. apply list_elem_of_here.
  - cbn [pick]. destruct (f z); [apply list_elem_of_further|]; now apply IH.
Qed.

Section WithOracles.

Context {image descriptor : Type}.
Variable face_encodings : image -> list descriptor.
Variable shrink : image -> image.
Variable distance : descriptor -> descriptor -> Q.

Abbreviation System := (@Embedding.System image descriptor).
Abbreviation recognize_face := (Embedding.recognize_face distance).
Abbreviation recognize_faces := (Embedding.recognize_faces distance).
Abbreviation run_loop := (Embedding.run_loop face_encodings shrink distance).
Abbreviation run := (Embedding.run face_encodings shrink distance).
Abbreviation load_file := (Embedding.load_file face_encodings).
Abbreviation load_known_faces_on :=
  (Embedding.load_known_faces_on face_encodings).
Abbreviation add_employee := (Embedding.add_employee face_encodings).
Abbreviation init := (Startup.init face_encodings).

(** *** Index safety *)

Lemma recognize_face_paired (face : descriptor) (now : datetime) (s : System) :
  paired s -> exists r, recognize_face face now s = inr r.
Proof.
  intros Hp. unfold Embedding.recognize_face.
  destruct (known_face_encodings s) as [|k0 known] eqn:Hknown.
  { now eexists. }
  destruct (argmin_nearest distance (k0 :: known) face ltac:(discriminate))
    as (i & k & Harg & Hk & _).
  change (0 <? length (face_distance distance (k0 :: known) face))%nat
    with true. cbn iota.
  rewrite Harg, compare_faces_lookup, Hk. cbn [option_map].
  destruct (known_face_names s !! i) as [name|] eqn:Hname.
  - destruct (Qle_bool _ _); now eexists.
  - apply lookup_ge_None in Hname. apply lookup_lt_Some in Hk.
    unfold paired in Hp. rewrite Hknown in Hp. lia.
Qed.

Lemma step_paired (s s' : System) :
  EmbeddingMore.step s s' -> paired s -> paired s'.
Proof.
  intros [(_ & He & Hn) _] Hp. unfold paired in *. now rewrite He, Hn.
Qed.

Lemma recognize_faces_paired (faces : list descriptor) (now : datetime)
  (s : System) :
  paired s -> snd (recognize_faces faces now s) = None.
Proof.
  revert s. induction faces as [|face faces IH]; intros s Hp; [reflexivity|].
  cbn [Embedding.recognize_faces].
  pose proof (recognize_face_step distance face now s) as Hstep.
  destruct (recognize_face_paired face now s Hp) as [[s' shown] Hr].
  rewrite Hr in *. apply IH. exact (step_paired _ _ (proj1 Hstep) Hp).
Qed.

Lemma run_loop_paired (ticks : list tick) (s : System) :
  paired s -> forall e, snd (run_loop ticks s) <> Raised e.
Proof.
  revert s. induction ticks as [|t ticks IH]; intros s Hp e; [discriminate|].
  cbn [Embedding.run_loop].
  destruct (frame t) as [fr|]; [|discriminate].
  pose proof (recognize_faces_paired (face_encodings (shrink fr)) (clock t) s Hp)
    as Hnone.
  pose proof (recognize_faces_step distance (face_encodings (shrink fr))
                (clock t) s) as Hstep.
  destruct (recognize_faces _ (clock t) s) as [s' stop].
  cbn [fst snd] in *. subst stop.
  destruct (key t =? ord_q)%nat; [discriminate|].
  apply IH. exact (step_paired _ _ Hstep Hp).
Qed.

Lemma best_match_in_range (face : descriptor) (s : System) :
  paired s -> known_face_encodings s <> [] ->
  exists i,
    argmin (face_distance distance (known_face_encodings s) face) = Some i
    /\ is_Some (compare_faces distance (known_face_encodings s) face tolerance
                !! i)
    /\ is_Some (known_face_names s !! i).
Proof.
  intros Hp Hne.
  destruct (argmin_nearest distance (known_face_encodings s) face Hne)
    as (i & k & Harg & Hk & _).
  exists i. split; [exact Harg|]. split.
  - rewrite compare_faces_lookup, Hk. now eexists.
  - apply lookup_lt_is_Some. apply lookup_lt_Some in Hk.
    unfold paired in Hp. lia.
Qed.

(** With a name for every descriptor, as [load_known_faces] and
    [add_employee] keep the two lists, the indexing of the matcher is in
    range: for a store that is not empty [np.argmin] gives an index, and
    [matches] and [known_face_names] both have an element there; [run]
    keeps the two lists of equal length, and does not end by an
    [IndexError] of these two look-ups nor by the [ValueError] of
    [np.argmin] on an empty array. *)
Theorem run_indices_in_range (s : System) :
  paired s ->
  (forall face,
     known_face_encodings s <> [] ->
     exists i,
       argmin (face_distance distance (known_face_encodings s) face) = Some i
       /\ is_Some (compare_faces distance (known_face_encodings s) face
                     tolerance !! i)
       /\ is_Some (known_face_names s !! i))
  /\ (forall ticks,
        paired (fst (run ticks s))
        /\ snd (run ticks s) <> Raised IndexError
        /\ snd (run ticks s) <> Raised ValueError).
Proof.
  intros Hp. split.
  - intros face Hne. now apply best_match_in_range.
  - intros ticks. split.
    + exact (step_paired _ _ (run_step face_encodings shrink distance ticks s)
               Hp).
    + assert (H : forall e, snd (run ticks s) <> Raised e).
      { intros e. unfold Embedding.run.
        pose proof (run_loop_paired ticks
                      (Embedding.print "Press 'q' to quit"
                         (Embedding.print
                            "Starting face recognition attendance system..."
                            s))
                      Hp e) as H.
        destruct (run_loop ticks _) as [s' stop]. cbn [snd] in *.
        now destruct stop. }
      split; apply H.
Qed.

(** *** Loading *)

(** What a directory entry brings into the store, and what is printed
    for it. *)
Definition first_encoding (entry : string * image)
  : option (string * descriptor) :=
  match face_encodings (snd entry) with
  | encoding :: _ => Some (splitext_root (fst entry), encoding)
  | [] => None
  end.

Definition load_line (entry : string * image) : string :=
  match face_encodings (snd entry) with
  | _ :: _ => "Loaded: " +:+ splitext_root (fst entry)
  | [] => "Warning: No face found in " +:+ fst entry
  end.

Lemma load_file_fold (listing : list (string * image)) (s : System) :
  let s' := fold_left load_file listing s in
  known_face_names s'
  = known_face_names s ++ map fst (pick first_encoding (image_files listing))
  /\ known_face_encodings s'
     = known_face_encodings s
       ++ map snd (pick first_encoding (image_files listing))
  /\ database s' = database s
  /\ attendance_log (env s') = attendance_log (env s)
  /\ hw (env s') = hw (env s)
  /\ stdout (env s') = stdout (env s) ++ map load_line (image_files listing).
Proof.
  revert s. induction listing as [|[filename picture] listing IH]; intros s.
  - cbn. now rewrite !app_nil_r.
  - cbn [fold_left image_files List.filter fst].
    fold (image_files listing).
    destruct (IH (load_file s (filename, picture)))
      as (H1 & H2 & H3 & H4 & H5 & H6).
    cbv zeta. rewrite H1, H2, H3, H4, H5, H6. clear.
    unfold Embedding.load_file.
    destruct (is_image_file filename); [|repeat split; reflexivity].
    cbn [pick map].
    change (first_encoding (filename, picture))
      with (match face_encodings picture with
            | encoding :: _ => Some (splitext_root filename, encoding)
            | [] => None
            end).
    change (load_line (filename, picture))
      with (match face_encodings picture with
            | _ :: _ => "Loaded: " +:+ splitext_root filename
            | [] => "Warning: No face found in " +:+ filename
            end).
    destruct (face_encodings picture) as [|encoding more]; cbn;
      rewrite <- ?List.app_assoc; repeat split; reflexivity.
Qed.

Lemma load_known_faces_fold (listing : list (string * image)) (s : System) :
  let s' := load_known_faces_on listing s in
  let loaded := pick first_encoding (image_files listing) in
  known_face_names s' = known_face_names s ++ map fst loaded
  /\ known_face_encodings s' = known_face_encodings s ++ map snd loaded
  /\ database s' = database s
  /\ attendance_log (env s') = attendance_log (env s)
  /\ hw (env s') = hw (env s)
  /\ stdout (env s')
     = stdout (env s)
       ++ ["Loading employee database..."]
       ++ map load_line (image_files listing)
       ++ ["Database loaded. "
           +:+ pretty (length (known_face_names s ++ map fst loaded))
           +:+ " employees registered."].
Proof.
  intros s' loaded. subst s' loaded. unfold Embedding.load_known_faces_on.
  destruct (load_file_fold listing
              (Embedding.print "Loading employee database..." s))
    as (H1 & H2 & H3 & H4 & H5 & H6).
  cbn [Embedding.print with_env env known_face_names known_face_encodings
       database Ledger.print attendance_log hw stdout] in *.
  rewrite H1, H2, H3, H4, H5, H6. rewrite <- !List.app_assoc.
  repeat split; reflexivity.
Qed.

(** [load_known_faces] takes the [.jpg] and [.png] entries in the order
    of the listing and ignores the others; an entry with a face adds its
    name (the file name without extension) and its first descriptor at the
    end of the two lists and prints [Loaded]; an entry without a face adds
    nothing and prints a warning; the directory, the attendance file and
    the GPIO lines are not touched. *)
Theorem load_known_faces_lists (listing : list (string * image)) (s : System) :
  let s' := load_known_faces_on listing s in
  let loaded := pick first_encoding (image_files listing) in
  known_face_names s' = known_face_names s ++ map fst loaded
  /\ known_face_encodings s' = known_face_encodings s ++ map snd loaded
  /\ database s' = database s
  /\ attendance_log (env s') = attendance_log (env s)
  /\ hw (env s') = hw (env s)
  /\ stdout (env s')
     = stdout (env s)
       ++ ["Loading employee database..."]
       ++ map load_line (image_files listing)
       ++ ["Database loaded. "
           +:+ pretty (length (known_face_names s ++ map fst loaded))
           +:+ " employees registered."].
Proof. exact (load_known_faces_fold listing s). Qed.

(** *** Enrolling, then recognising *)

Lemma lookup_map {A B : Type} (f : A -> B) (l : list A) (i : nat) :
  map f l !! i = option_map f (l !! i).
Proof.
  revert i. induction l as [|x l IH]; intros [|i]; try reflexivity.
  exact (IH i).
Qed.

(** What the first capture of a picture with a face makes of the state. *)
Lemma add_employee_capture (name : string) (fr : image) (enc : descriptor)
  (more : list descriptor) (t : tick) (rest : list tick) (s : System) :
  frame t = Some fr -> key t = ord_c ->
  face_encodings fr = enc :: more ->
  let s' := fst (add_employee name (t :: rest) s) in
  snd (add_employee name (t :: rest) s) = Finished
  /\ database s' = <[name +:+ ".jpg" := fr]> (database s)
  /\ known_face_encodings s' = known_face_encodings s ++ [enc]
  /\ known_face_names s' = known_face_names s ++ [name]
  /\ attendance_log (env s') = attendance_log (env s).
Proof.
  intros Hf Hk Henc. unfold Embedding.add_employee.
  cbn [add_employee_loop]. rewrite Hf, Hk, Nat.eqb_refl.
  cbn [imwrite with_database database Embedding.print with_env].
  rewrite lookup_insert_eq, Henc. cbn. repeat split; reflexivity.
Qed.

Lemma recognize_last (old : list descriptor) (names : list string)
  (enc : descriptor) (name : string) (now : datetime) (s : System) :
  known_face_encodings s = old ++ [enc] ->
  known_face_names s = names ++ [name] ->
  length names = length old ->
  (distance enc enc <= tolerance)%Q ->
  (forall k, k ∈ old -> (distance enc enc < distance k enc)%Q) ->
  recognize_face enc now s
  = inr (with_env (fst (mark_attendance name now (env s))) s, name).
Proof.
  intros Hknown Hnames Hlen Htol Hfar.
  destruct (argmin_nearest distance (old ++ [enc]) enc)
    as (i & k & Harg & Hk & Hmin & _).
  { now destruct old. }
  assert (Hi : i = length old /\ k = enc).
  { apply lookup_snoc_Some in Hk as [[_ Hk]|[-> <-]]; [|now split].
    apply list_elem_of_lookup_2 in Hk.
    pose proof (Hfar k Hk) as Hlt.
    pose proof (Hmin (length old) enc (list_lookup_middle _ _ _ _ eq_refl))
      as Hle.
    now apply Qlt_not_le in Hlt. }
  destruct Hi as [-> ->].
  unfold Embedding.recognize_face. rewrite Hknown, Hnames.
  assert (Hpos : (0 <? length (face_distance distance (old ++ [enc]) enc))%nat
                 = true).
  { now destruct old. }
  rewrite Hpos, Harg, compare_faces_lookup.
  rewrite (list_lookup_middle old [] enc (length old) eq_refl).
  cbn [option_map]. apply Qle_bool_iff in Htol. rewrite Htol.
  now rewrite (list_lookup_middle names [] name (length old) (eq_sym Hlen)).
Qed.

(** A person is recognisable right after enrollment, without restart:
    when [name.jpg] can name an entry of the directory (no [/] in the
    name) and the captured picture shows a face, a face with the same
    descriptor is then given the new name and marked, provided the
    descriptor is within the tolerance of itself and strictly closer to
    itself than to every descriptor enrolled before. *)
Theorem enrolled_face_is_recognized (name : string) (fr : image)
  (enc : descriptor) (more : list descriptor) (t : tick) (rest : list tick)
  (now : datetime) (s : System) :
  is_entry_name (name +:+ ".jpg") = true ->
  paired s ->
  frame t = Some fr -> key t = ord_c ->
  face_encodings fr = enc :: more ->
  (distance enc enc <= tolerance)%Q ->
  (forall k, k ∈ known_face_encodings s ->
     (distance enc enc < distance k enc)%Q) ->
  let s' := fst (add_employee name (t :: rest) s) in
  snd (add_employee name (t :: rest) s) = Finished
  /\ database s' !! (name +:+ ".jpg") = Some fr
  /\ recognize_face enc now s'
     = inr (with_env (fst (mark_attendance name now (env s'))) s', name).
Proof.
  intros _ Hp Hf Hk Henc Htol Hfar s'.
  destruct (add_employee_capture name fr enc more t rest s Hf Hk Henc)
    as (Hend & Hdb & Hencs & Hnames & _).
  fold s' in Hdb, Hencs, Hnames.
  split; [exact Hend|]. split.
  - rewrite Hdb. apply lookup_insert_eq.
  - exact (recognize_last _ _ enc name now s' Hencs Hnames Hp Htol Hfar).
Qed.

(** *** Starting *)

Lemma init_facts (d : @Startup.disk image) :
  let s := fst (init d) in
  let loaded :=
    pick first_encoding
      (image_files (map_to_list (default ∅ (Startup.employees_dir d)))) in
  attendance_log (env s)
  = Some (default (render [header]) (Startup.log_file d))
  /\ hw (env s) = []
  /\ database s = default ∅ (Startup.employees_dir d)
  /\ known_face_names s = map fst loaded
  /\ known_face_encodings s = map snd loaded.
Proof.
  intros s loaded. subst s loaded. unfold Startup.init. cbn [fst].
  unfold Embedding.load_known_faces. cbn [database].
  match goal with
  | |- context [Embedding.load_known_faces_on _ ?l ?s0] =>
      destruct (load_known_faces_fold l s0) as (H1 & H2 & H3 & H4 & H5 & _)
  end.
  cbn [known_face_names known_face_encodings database env attendance_log hw
       app] in H1, H2, H3, H4, H5.
  rewrite H1, H2, H3, H4, H5. repeat split.
Qed.

(** [__init__] never rewrites an attendance file that exists and fills a
    missing one with the header row alone; it gives no signal, takes the
    directory as it is (empty when missing), and builds the two lists
    from the pictures with a face, a name for every descriptor. *)
Theorem init_state (d : @Startup.disk image) :
  let s := fst (init d) in
  attendance_log (env s)
  = Some (default (render [header]) (Startup.log_file d))
  /\ hw (env s) = []
  /\ database s = default ∅ (Startup.employees_dir d)
  /\ known_face_names s
     = map fst (pick first_encoding
                  (image_files
                     (map_to_list (default ∅ (Startup.employees_dir d)))))
  /\ paired s.
Proof.
  intros s. subst s. destruct (init_facts d) as (H1 & H2 & H3 & H4 & H5).
  repeat split; try assumption.
  unfold paired. now rewrite H4, H5, !length_map.
Qed.

(** An employee enrolled in one session is there at the next start: when
    [name.jpg] can name an entry of the directory (no [/] in the name),
    the captured picture shows a face and the name holds a character other
    than a dot, [__init__] on the directory left by [add_employee] loads
    that name with the first descriptor of the picture, at the same index
    of the two lists. *)
Theorem enrolled_is_loaded_at_restart (name : string) (fr : image)
  (enc : descriptor) (more : list descriptor) (t : tick) (rest : list tick)
  (s : System) :
  is_entry_name (name +:+ ".jpg") = true ->
  frame t = Some fr -> key t = ord_c ->
  face_encodings fr = enc :: more ->
  all_chars is_dot name = false ->
  let s' := fst (add_employee name (t :: rest) s) in
  let restarted :=
    fst (init {| Startup.log_file := attendance_log (env s');
                 Startup.employees_dir := Some (database s') |}) in
  exists i,
    known_face_names restarted !! i = Some name
    /\ known_face_encodings restarted !! i = Some enc.
Proof.
  intros _ Hf Hk Henc Hdots s' restarted.
  destruct (add_employee_capture name fr enc more t rest s Hf Hk Henc)
    as (_ & Hdb & _).
  fold s' in Hdb.
  destruct (init_facts {| Startup.log_file := attendance_log (env s');
                          Startup.employees_dir := Some (database s') |})
    as (_ & _ & _ & Hn & He).
  fold restarted in Hn, He. cbn [Startup.employees_dir default] in Hn, He.
  unfold id in Hn, He.
  destruct (FilesFacts.picture_name name) as [Himg Hroot].
  rewrite Hdots in Hroot.
  assert (Hin : (name, enc)
                ∈ pick first_encoding (image_files (map_to_list (database s')))).
  { apply (pick_elem _ _ (name +:+ ".jpg", fr)).
    - apply list_elem_of_In, List.filter_In. split; [|exact Himg].
      apply list_elem_of_In, elem_of_map_to_list.
      rewrite Hdb. apply lookup_insert_eq.
    - unfold first_encoding. cbn [fst snd]. now rewrite Henc, Hroot. }
  apply list_elem_of_lookup in Hin as [i Hi].
  exists i. rewrite Hn, He, !lookup_map, Hi. now split.
Qed.

(** *** Captures without a face *)



End WithOracles.

(** *** Concrete runs *)

Lemma run_indices_in_range_witness :
  paired (toy_store ∅ [5%Q; 3%Q] ["eve"; "alice"])
  /\ (exists i,
        argmin (face_distance toy_distance [5%Q; 3%Q] 3%Q) = Some i
        /\ is_Some (compare_faces toy_distance [5%Q; 3%Q] 3%Q tolerance !! i)
        /\ is_Some (["eve"; "alice"] !! i))
  /\ snd (Embedding.run toy_encodings id toy_distance
            [toy_tick 3 ord_q] (toy_store ∅ [5%Q; 3%Q] ["eve"; "alice"]))
     <> Raised IndexError.
Proof.
  split; [reflexivity|].
  destruct (run_indices_in_range toy_encodings id toy_distance
              (toy_store ∅ [5%Q; 3%Q] ["eve"; "alice"]) eq_refl)
    as [Hface Hrun].
  split.
  - apply (Hface 3%Q). discriminate.
  - exact (proj1 (proj2 (Hrun [toy_tick 3 ord_q]))).
Defined.

Lemma enrolled_face_is_recognized_witness :
  option_map snd
    (match Embedding.recognize_face toy_distance 9%Q LedgerFacts.morning
             (fst (Embedding.add_employee toy_encodings "bob"
                     [toy_tick 9 ord_c] alice_enrolled)) with
     | inr r => Some r
     | inl _ => None
     end) = Some "bob".
Proof.
  assert (Htol : (toy_distance 9 9 <= tolerance)%Q)
    by (vm_compute; discriminate).
  assert (Hfar : forall k, k ∈ [7%Q] ->
                   (toy_distance 9 9 < toy_distance k 9)%Q).
  { intros k Hk. apply list_elem_of_singleton in Hk. subst k.
    vm_compute. reflexivity. }
  destruct (enrolled_face_is_recognized toy_encodings toy_distance
              "bob" 9%nat 9%Q [] (toy_tick 9 ord_c) []
              LedgerFacts.morning alice_enrolled
              eq_refl eq_refl eq_refl eq_refl eq_refl Htol Hfar)
    as (_ & _ & H).
  rewrite H. reflexivity.
Defined.

Lemma enrolled_is_loaded_at_restart_witness :
  exists i,
    known_face_names
      (fst (Startup.init toy_encodings
              {| Startup.log_file := None;
                 Startup.employees_dir :=
                   Some (database
                           (fst (Embedding.add_employee toy_encodings "bob"
                                   [toy_tick 9 ord_c] alice_enrolled))) |}))
    !! i = Some "bob".
Proof.
  destruct (enrolled_is_loaded_at_restart toy_encodings "bob" 9%nat 9%Q []
              (toy_tick 9 ord_c) [] alice_enrolled
              eq_refl eq_refl eq_refl eq_refl eq_refl) as (i & Hn & _).
  exists i.
  destruct (init_facts toy_encodings
              {| Startup.log_file := None;
                 Startup.employees_dir :=
                   Some (database
                           (fst (Embedding.add_employee toy_encodings "bob"
                                   [toy_tick 9 ord_c] alice_enrolled))) |})
    as (_ & _ & _ & Hnames & _).
  destruct (init_facts toy_encodings
              {| Startup.log_file :=
                   attendance_log
                     (env (fst (Embedding.add_employee toy_encodings "bob"
                                  [toy_tick 9 ord_c] alice_enrolled)));
                 Startup.employees_dir :=
                   Some (database
                           (fst (Embedding.add_employee toy_encodings "bob"
                                   [toy_tick 9 ord_c] alice_enrolled))) |})
    as (_ & _ & _ & Hnames' & _).
  rewrite Hnames. rewrite Hnames' in Hn. exact Hn.
Defined.


End StoreMore.


(** ** More on the trained-classifier matcher *)

Module ClassifierMore.

Import TextFacts Ledger LedgerFacts Classifier ClassifierFacts.
Import EmbeddingMore(content, written, written_refl, written_trans,
                     written_same, written_mark).
Import StoreMore(pick_elem, lookup_map).

Lemma pick_elem_inv {A B : Type} (f : A -> option B) (l : list A) (y : B) :
  y ∈ pick f l -> exists x, x ∈ l /\ f x = Some y.
Proof.
  induction l as [|z l IH]; cbn [pick]; intros H.
  - now apply elem_of_nil in H.
  - destruct (f z) as [y'|] eqn:Hz.
    + apply elem_of_cons in H as [->|H].
      * exists z. split; [apply list_elem_of_here | exact Hz].
      * destruct (IH H) as (x & Hx & Hf). exists x.
        split; [now apply list_elem_of_further | exact Hf].
    + destruct (IH H) as (x & Hx & Hf). exists x.
      split; [now apply list_elem_of_further | exact Hf].
Qed.

Lemma fold_print_env (msgs : list string) (e : Env) :
  attendance_log (fold_left (fun e msg => Ledger.print msg e) msgs e)
  = attendance_log e
  /\ hw (fold_left (fun e msg => Ledger.print msg e) msgs e) = hw e.
Proof.
  revert e. induction msgs as [|m msgs IH]; intros e; [now split|].
  cbn [fold_left]. destruct (IH (Ledger.print m e)) as [H1 H2].
  now rewrite H1, H2.
Qed.

Section WithOracles.

Context {image region : Type}.
Variable to_gray : image -> image.
Variable detectMultiScale : image -> list rect.
Variable crop : image -> rect -> region.
Variable rectangle : image -> rect -> image.
Variable lbph_predict : list (region * Z) -> region -> Z * Q.
Variable untrained_text : string.

Abbreviation System := (@Classifier.System image region).
Abbreviation train_file := (Classifier.train_file to_gray detectMultiScale crop).
Abbreviation train_model_on :=
  (Classifier.train_model_on to_gray detectMultiScale crop).
Abbreviation train_model := (Classifier.train_model to_gray detectMultiScale crop).
Abbreviation first_face := (ClassifierFacts.first_face to_gray detectMultiScale crop).
Abbreviation sample_face := (ClassifierFacts.sample_face to_gray detectMultiScale crop).
Abbreviation sample_label := (ClassifierFacts.sample_label to_gray detectMultiScale crop).
Abbreviation recognize_face :=
  (Classifier.recognize_face crop lbph_predict untrained_text).
Abbreviation recognize_faces :=
  (Classifier.recognize_faces crop lbph_predict untrained_text).
Abbreviation run_loop :=
  (Classifier.run_loop to_gray detectMultiScale crop lbph_predict
     untrained_text).
Abbreviation run :=
  (Classifier.run to_gray detectMultiScale crop lbph_predict untrained_text).
Abbreviation add_employee_loop :=
  (Classifier.add_employee_loop to_gray detectMultiScale crop rectangle).
Abbreviation add_employee :=
  (Classifier.add_employee to_gray detectMultiScale crop rectangle).

(** *** Training *)

(** The sample a numbered picture gives: its first face with its label. *)
Definition sample (item : Z * (string * image)) : option (region * Z) :=
  option_map (fun face => (face, fst item)) (first_face (snd (snd item))).

Lemma zip_samples (numbered : list (Z * (string * image))) :
  zip (pick sample_face numbered) (pick sample_label numbered)
  = pick sample numbered.
Proof.
  induction numbered as [|item numbered IH]; [reflexivity|].
  cbn [pick]. unfold sample_face at 1, sample_label at 1, sample at 1.
  unfold ClassifierFacts.sample_face, ClassifierFacts.sample_label.
  destruct (first_face (snd (snd item))); cbn [option_map zip zip_with];
    [f_equal|]; exact IH.
Qed.

Lemma pick_sample_length (numbered : list (Z * (string * image))) :
  length (pick sample_face numbered) = length (pick sample numbered).
Proof.
  induction numbered as [|item numbered IH]; [reflexivity|].
  cbn [pick]. unfold ClassifierFacts.sample_face at 1, sample at 1.
  destruct (first_face (snd (snd item))); cbn [option_map length];
    now rewrite ?IH.
Qed.

Lemma train_model_on_fields (listing : list (string * image)) (s : System) :
  let s' := train_model_on listing s in
  let numbered := number_from 1 (image_files listing) in
  employee_ids s' = list_to_map (map table_entry numbered)
  /\ recognizer s'
     = match pick sample numbered with
       | [] => recognizer s
       | samples => samples
       end
  /\ model_file s'
     = match pick sample numbered with
       | [] => model_file s
       | samples => Some samples
       end
  /\ database s' = database s
  /\ attendance_log (env s') = attendance_log (env s)
  /\ hw (env s') = hw (env s).
Proof.
  intros s' numbered. subst s'. unfold Classifier.train_model_on.
  destruct (train_file_fold to_gray detectMultiScale crop listing
              training_start) as (H1 & H2 & H3 & H4).
  cbn [training_start id_map faces ids log next_id app] in H1, H2, H3, H4.
  fold numbered in H1, H2, H3, H4.
  rewrite H1, H2, H3, zip_samples.
  assert (Hlen : (0 <? length (pick sample_face numbered))%nat
                 = match pick sample numbered with [] => false | _ => true end).
  { pose proof (pick_sample_length numbered) as L.
    destruct (pick sample_face numbered), (pick sample numbered);
      try discriminate; reflexivity. }
  rewrite Hlen.
  match goal with
  | |- context [fold_left ?f ?msgs ?e] =>
      destruct (fold_print_env msgs e) as [Hl Hh]
  end.
  destruct (pick sample numbered); cbn; rewrite ?Hl, ?Hh; repeat split.
Qed.

Lemma number_from_lookup (files : list (string * image)) (k0 : Z)
  (item : Z * (string * image)) :
  item ∈ number_from k0 files ->
  exists i, files !! i = Some (snd item) /\ fst item = (k0 + Z.of_nat i)%Z.
Proof.
  revert k0. induction files as [|f files IH]; intros k0 H.
  - now apply elem_of_nil in H.
  - cbn [number_from] in H. apply elem_of_cons in H as [->|H].
    + exists 0%nat. cbn. split; [reflexivity | lia].
    + destruct (IH _ H) as (i & Hi & Hk). exists (S i).
      split; [exact Hi | lia].
Qed.

(** The label table, read by label: the [i]-th picture of the listing
    (from 0) is under label [k0 + i], and no other label is there. *)
Lemma table_lookup (files : list (string * image)) (k0 : Z) :
  (forall i entry, files !! i = Some entry ->
     (list_to_map (map table_entry (number_from k0 files)) : gmap Z string)
       !! (k0 + Z.of_nat i)%Z = Some (splitext_root (fst entry)))
  /\ (forall k, (k < k0 \/ k0 + Z.of_nat (length files) <= k)%Z ->
        (list_to_map (map table_entry (number_from k0 files)) : gmap Z string)
          !! k = None).
Proof.
  revert k0. induction files as [|f files IH]; intros k0.
  - split; [intros i entry H; now rewrite lookup_nil in H|].
    intros k _. apply lookup_empty.
  - destruct (IH (k0 + 1)%Z) as [IHin IHout].
    cbn [number_from map list_to_map foldr].
    change (fst (table_entry (k0, f))) with k0.
    change (snd (table_entry (k0, f))) with (splitext_root (fst f)).
    split.
    + intros [|i] entry H.
      * injection H as <-. rewrite Z.add_0_r. apply lookup_insert_eq.
      * rewrite lookup_insert_ne by lia.
        replace (k0 + Z.of_nat (S i))%Z with (k0 + 1 + Z.of_nat i)%Z by lia.
        now apply IHin.
    + intros k Hk.
      change (length (f :: files)) with (S (length files)) in Hk.
      rewrite lookup_insert_ne by lia.
      apply IHout. lia.
Qed.

Lemma trained_samples (listing : list (string * image)) (s : System) :
  let s' := train_model_on listing s in
  let files := image_files listing in
  (forall i entry, files !! i = Some entry ->
     employee_ids s' !! (Z.of_nat i + 1)%Z = Some (splitext_root (fst entry)))
  /\ (forall k, (k < 1 \/ Z.of_nat (length files) < k)%Z ->
        employee_ids s' !! k = None)
  /\ (pick sample (number_from 1 files) <> [] ->
      forall face label, (face, label) ∈ recognizer s' ->
        exists i entry,
          files !! i = Some entry
          /\ label = (Z.of_nat i + 1)%Z
          /\ first_face (snd entry) = Some face
          /\ employee_ids s' !! label = Some (splitext_root (fst entry))).
Proof.
  intros s' files.
  destruct (train_model_on_fields listing s) as (Hids & Hrec & _).
  fold s' files in Hids, Hrec.
  destruct (table_lookup files 1) as [Hin Hout].
  assert (Hlook : forall i entry, files !! i = Some entry ->
            employee_ids s' !! (Z.of_nat i + 1)%Z
            = Some (splitext_root (fst entry))).
  { intros i entry H. rewrite Hids, Z.add_comm. now apply Hin. }
  split; [exact Hlook|]. split.
  - intros k Hk. rewrite Hids. apply Hout. lia.
  - intros Hsome face label Hmem.
    destruct (pick sample (number_from 1 files)) as [|x l] eqn:Hp;
      [congruence|].
    rewrite Hrec, <- Hp in Hmem.
    apply pick_elem_inv in Hmem as (item & Hitem & Hs).
    apply number_from_lookup in Hitem as (i & Hi & Hk).
    unfold sample in Hs.
    destruct (first_face (snd (snd item))) as [face'|] eqn:Hface;
      [|discriminate].
    injection Hs as <- <-.
    exists i, (snd item). repeat split.
    + exact Hi.
    + lia.
    + exact Hface.
    + rewrite Hk, Z.add_comm. now apply Hlook.
Qed.

(** After [train_model], label [i + 1] resolves to the name of the
    [i]-th image file of the listing and no other label resolves; every
    sample of the recognizer carries the label of the picture it was cut
    from, so its label resolves to that picture's name. *)
Theorem train_model_table (listing : list (string * image)) (s : System) :
  let s' := train_model_on listing s in
  let files := image_files listing in
  (forall i entry, files !! i = Some entry ->
     employee_ids s' !! (Z.of_nat i + 1)%Z = Some (splitext_root (fst entry)))
  /\ (forall k, (k < 1 \/ Z.of_nat (length files) < k)%Z ->
        employee_ids s' !! k = None)
  /\ (pick sample (number_from 1 files) <> [] ->
      forall face label, (face, label) ∈ recognizer s' ->
        exists i entry,
          files !! i = Some entry
          /\ label = (Z.of_nat i + 1)%Z
          /\ first_face (snd entry) = Some face
          /\ employee_ids s' !! label = Some (splitext_root (fst entry))).
Proof. exact (trained_samples listing s). Qed.

(** After a training that found a face, a face that the recognizer
    answers with the label of one of its samples and a confidence under
    the threshold is given the name of a picture of the directory in which
    a face was found, never the default [Unknown], and that name is
    marked. *)
Theorem trained_face_resolves (listing : list (string * image)) (s : System)
  (gray : image) (r : rect) (now : datetime) :
  let s' := train_model_on listing s in
  pick sample (number_from 1 (image_files listing)) <> [] ->
  (exists face0,
     (face0, fst (lbph_predict (recognizer s') (crop gray r)))
     ∈ recognizer s') ->
  (snd (lbph_predict (recognizer s') (crop gray r)) < threshold)%Q ->
  exists entry,
    entry ∈ image_files listing
    /\ first_face (snd entry) <> None
    /\ recognize_face gray r now s'
       = (with_env
            (fst (mark_attendance (splitext_root (fst entry)) now (env s')))
            s',
          Some (splitext_root (fst entry))).
Proof.
  intros s' Hsome [face0 Hmem] Hconf.
  destruct (trained_samples listing s) as (_ & _ & Hsamples).
  fold s' in Hsamples.
  destruct (Hsamples Hsome _ _ Hmem) as (i & entry & Hi & _ & Hface & Hid).
  exists entry. split; [now apply list_elem_of_lookup_2 in Hi|].
  split; [now rewrite Hface|].
  unfold Classifier.recognize_face, predict.
  destruct (recognizer s') as [|x l] eqn:Hrec;
    [now apply elem_of_nil in Hmem|].
  destruct (lbph_predict (x :: l) (crop gray r)) as [id_num confidence].
  cbn [fst snd] in Hid, Hconf.
  now rewrite (proj2 (EmbeddingFacts.Qltb_lt _ _) Hconf), Hid.
Qed.

Lemma pick_no_face (files : list (string * image)) (k0 : Z) :
  (forall entry, entry ∈ files -> first_face (snd entry) = None) ->
  pick sample (number_from k0 files) = []
  /\ pick sample_face (number_from k0 files) = [].
Proof.
  revert k0. induction files as [|f files IH]; intros k0 Hnone; [now split|].
  cbn [number_from pick].
  unfold sample at 1, ClassifierFacts.sample_face at 1. cbn [fst snd].
  rewrite (Hnone f) by apply list_elem_of_here. cbn [option_map].
  apply IH. intros entry Hin. apply Hnone. now apply list_elem_of_further.
Qed.

(** When no picture of the directory shows a face, [train_model] leaves
    the recognizer and the saved model as they were, yet replaces the
    label table by the one of the present directory. *)
Theorem train_model_without_faces (listing : list (string * image))
  (s : System) :
  (forall entry, entry ∈ image_files listing -> first_face (snd entry) = None) ->
  let s' := train_model_on listing s in
  recognizer s' = recognizer s
  /\ model_file s' = model_file s
  /\ employee_ids s'
     = list_to_map (map table_entry (number_from 1 (image_files listing)))
  /\ last (stdout (env s'))
     = Some "No faces found in the database. Model not trained.".
Proof.
  intros Hnone s'.
  destruct (train_model_on_fields listing s) as (Hids & Hrec & Hfile & _).
  fold s' in Hids, Hrec, Hfile.
  destruct (pick_no_face (image_files listing) 1 Hnone) as [Hp Hf].
  rewrite Hp in Hrec, Hfile. repeat split; try assumption.
  subst s'. unfold Classifier.train_model_on.
  destruct (train_file_fold to_gray detectMultiScale crop listing
              training_start) as (_ & H2 & _).
  cbn [training_start faces next_id app] in H2.
  rewrite H2, Hf. cbn [length Nat.ltb Nat.leb env Ledger.print stdout].
  apply last_snoc.
Qed.

(** *** Recognition *)

(** [same_model s s']: the directory, the recognizer, the label table and
    the two model files are those of [s]. *)
Definition same_model (s s' : System) : Prop :=
  database s' = database s
  /\ recognizer s' = recognizer s
  /\ employee_ids s' = employee_ids s
  /\ model_file s' = model_file s
  /\ id_map_file s' = id_map_file s.

(** The names recognition can resolve a label to. *)
Definition resolvable (s : System) : list string :=
  "Unknown" :: map snd (map_to_list (employee_ids s)).

Lemma run_preserves (P : System -> Prop) :
  (forall s e, P s ->
     attendance_log e = attendance_log (env s) ->
     signals e = signals (env s) -> P (with_env e s)) ->
  (forall gray r now s, P s -> P (fst (recognize_face gray r now s))) ->
  forall ticks s, P s -> P (fst (run ticks s)).
Proof.
  intros Henv Hface.
  assert (Hfaces : forall gray rects now s,
            P s -> P (recognize_faces gray rects now s)).
  { intros gray rects now. induction rects as [|r rects IH]; intros s Hs;
      [exact Hs|].
    cbn [Classifier.recognize_faces]. apply IH, Hface, Hs. }
  assert (Hloop : forall ticks s, P s -> P (fst (run_loop ticks s))).
  { induction ticks as [|t ticks IH]; intros s Hs; [exact Hs|].
    cbn [Classifier.run_loop].
    destruct (key t =? ord_q)%nat; cbn [fst]; [now apply Hfaces|].
    apply IH. unfold emit. apply Henv; [now apply Hfaces | reflexivity|].
    apply signals_app. reflexivity. }
  intros ticks s Hs. unfold Classifier.run.
  set (s0 := print _ (print _ s)).
  assert (H0 : P s0).
  { unfold s0, print. apply Henv; [|reflexivity|reflexivity].
    apply Henv; [exact Hs|reflexivity|reflexivity]. }
  pose proof (Hloop ticks s0 H0) as H.
  destruct (run_loop ticks s0) as [s' stop]. cbn [fst] in H.
  assert (Hc : P (emit Cleanup s')).
  { unfold emit. apply Henv; [exact H | reflexivity|].
    apply signals_app. reflexivity. }
  now destruct stop.
Qed.

Lemma resolved_name (s : System) (id_num : Z) :
  default "Unknown" (employee_ids s !! id_num) ∈ resolvable s.
Proof.
  unfold resolvable. destruct (employee_ids s !! id_num) as [name|] eqn:H.
  - apply list_elem_of_further, list_elem_of_In, in_map_iff.
    exists (id_num, name). split; [reflexivity|].
    now apply list_elem_of_In, elem_of_map_to_list.
  - apply list_elem_of_here.
Qed.

Lemma run_model_step (ticks : list tick) (s : System) :
  same_model s (fst (run ticks s))
  /\ written (resolvable s) (env s) (env (fst (run ticks s))).
Proof.
  apply (run_preserves
           (fun s' => same_model s s'
                      /\ written (resolvable s) (env s) (env s'))).
  - intros s1 e [Hm Hw] Hl Hs. split; [exact Hm|].
    exact (written_trans _ _ _ _ Hw (written_same _ _ _ Hl Hs)).
  - intros gray r now s1 [Hm Hw]. unfold Classifier.recognize_face.
    destruct (predict lbph_predict untrained_text (recognizer s1) (crop gray r))
      as [e|[id_num confidence]]; cbn [fst].
    + split; [exact Hm|].
      refine (written_trans _ _ _ _ Hw (written_same _ _ _ _ _)); reflexivity.
    + destruct (Qltb confidence threshold); cbn [fst]; [|now split].
      split; [exact Hm|]. cbn [with_env env].
      refine (written_trans _ _ _ _ Hw (written_mark _ _ _ _ _)).
      destruct Hm as (_ & _ & He & _).
      rewrite He. apply resolved_name.
  - split; [now repeat split | apply written_refl].
Qed.

(** Recognition reads the classifier and never changes it: after [run]
    the employee directory, the recognizer, the label table and the two
    model files are what they were. *)
Theorem run_keeps_model (ticks : list tick) (s : System) :
  database (fst (run ticks s)) = database s
  /\ recognizer (fst (run ticks s)) = recognizer s
  /\ employee_ids (fst (run ticks s)) = employee_ids s
  /\ model_file (fst (run ticks s)) = model_file s
  /\ id_map_file (fst (run ticks s)) = id_map_file s.
Proof. exact (proj1 (run_model_step ticks s)). Qed.

(** [run] only adds records to the attendance file, each for a name of
    the label table or for [Unknown], and gives one signal per record. *)
Theorem run_records_resolvable_names (ticks : list tick) (s : System) :
  exists records,
    content (env (fst (run ticks s)))
    = content (env s) +:+ render records
    /\ Forall (fun r => exists name now,
                 r = record name now
                 /\ name ∈ "Unknown" :: map snd (map_to_list (employee_ids s)))
              records
    /\ signals (env (fst (run ticks s)))
       = (signals (env s) + length records)%nat.
Proof. exact (proj2 (run_model_step ticks s)). Qed.

(** When the recognizer answers every face with a confidence of 70 or
    more, [run] marks nobody: the attendance file is untouched and no
    signal is given. *)
Theorem run_rejects_low_confidence (ticks : list tick) (s : System) :
  (forall face,
     (threshold <= snd (lbph_predict (recognizer s) face))%Q) ->
  attendance_log (env (fst (run ticks s))) = attendance_log (env s)
  /\ signals (env (fst (run ticks s))) = signals (env s).
Proof.
  intros Hrej.
  enough (H : recognizer (fst (run ticks s)) = recognizer s
              /\ attendance_log (env (fst (run ticks s)))
                 = attendance_log (env s)
              /\ signals (env (fst (run ticks s))) = signals (env s))
    by exact (proj2 H).
  apply (run_preserves
           (fun s' => recognizer s' = recognizer s
                      /\ attendance_log (env s') = attendance_log (env s)
                      /\ signals (env s') = signals (env s))).
  - intros s1 e (Hr & Hl & Hs) Hl' Hs'. cbn [with_env recognizer env].
    repeat split; congruence.
  - intros gray r now s1 (Hr & Hl & Hs). unfold Classifier.recognize_face.
    destruct (predict lbph_predict untrained_text (recognizer s1) (crop gray r))
      as [e|[id_num confidence]] eqn:Hp; cbn [fst]; [now repeat split|].
    assert (Hc : Qltb confidence threshold = false).
    { apply EmbeddingFacts.Qltb_ge. unfold predict in Hp. rewrite Hr in Hp.
      destruct (recognizer s); [discriminate|]. injection Hp as Hp.
      pose proof (Hrej (crop gray r)) as H. now rewrite Hp in H. }
    rewrite Hc. now repeat split.
  - now repeat split.
Qed.

(** *** Enrollment *)

Lemma add_employee_loop_without_face (name : string) (ticks : list tick)
  (s : System) :
  (forall t, t ∈ ticks -> key t = ord_c ->
     detectMultiScale (to_gray (frame t)) = []) ->
  same_model s (fst (add_employee_loop name ticks s))
  /\ attendance_log (env (fst (add_employee_loop name ticks s)))
     = attendance_log (env s)
  /\ hw (env (fst (add_employee_loop name ticks s))) = hw (env s).
Proof.
  revert s. induction ticks as [|t ticks IH]; intros s Hnone.
  - now repeat split.
  - assert (Hrest : forall t', t' ∈ ticks -> key t' = ord_c ->
              detectMultiScale (to_gray (frame t')) = []).
    { intros t' Hin. apply Hnone. now apply list_elem_of_further. }
    cbn [Classifier.add_employee_loop].
    destruct (key t =? ord_c)%nat eqn:Hc.
    + apply Nat.eqb_eq in Hc.
      rewrite (Hnone t (list_elem_of_here _ _) Hc). cbn [length Nat.ltb Nat.leb].
      destruct (IH (print "No face detected! Please try again." s) Hrest)
        as (Hm & Hl & Hh).
      split; [exact Hm|]. now split.
    + destruct (key t =? ord_q)%nat; [now repeat split|]. now apply IH.
Qed.

(** A capture in which no face is found changes nothing but the console:
    as long as every capture key comes with a frame without a face,
    [add_employee] writes no picture, does not retrain, and leaves the
    label table, the model files, the attendance file and the GPIO lines
    as they were. *)
Theorem add_employee_without_face (name : string) (ticks : list tick)
  (s : System) :
  (forall t, t ∈ ticks -> key t = ord_c ->
     detectMultiScale (to_gray (frame t)) = []) ->
  let s' := fst (add_employee name ticks s) in
  database s' = database s
  /\ recognizer s' = recognizer s
  /\ employee_ids s' = employee_ids s
  /\ model_file s' = model_file s
  /\ id_map_file s' = id_map_file s
  /\ attendance_log (env s') = attendance_log (env s)
  /\ hw (env s') = hw (env s).
Proof.
  intros Hnone s'. subst s'. unfold Classifier.add_employee.
  destruct (add_employee_loop_without_face name ticks
              (print "Press 'c' to capture, 'q' to cancel"
                 (print "Position face in front of camera"
                    (print ("Adding new employee: " +:+ name) s))) Hnone)
    as ((H1 & H2 & H3 & H4 & H5) & H6 & H7).
  repeat split; assumption.
Qed.

(** A capture with a face enrolls under the typed name, when [name.jpg]
    can name an entry of the directory (no [/] in the name): the frame,
    with the rectangles drawn on it, is stored as the picture of [name],
    the model is retrained, and, for a name that holds a character other
    than a dot, some label of the new table resolves to [name]. *)
Theorem add_employee_enrolls (name : string) (t : tick) (rest : list tick)
  (s : System) :
  is_entry_name (name +:+ ".jpg") = true ->
  key t = ord_c ->
  detectMultiScale (to_gray (frame t)) <> [] ->
  all_chars is_dot name = false ->
  let s' := fst (add_employee name (t :: rest) s) in
  snd (add_employee name (t :: rest) s) = Finished
  /\ database s'
     = <[name +:+ ".jpg"
         := fold_left rectangle (detectMultiScale (to_gray (frame t)))
              (frame t)]> (database s)
  /\ exists label, employee_ids s' !! label = Some name.
Proof.
  intros _ Hk Hfound Hdots s'. subst s'. unfold Classifier.add_employee.
  cbn [Classifier.add_employee_loop]. rewrite Hk, Nat.eqb_refl.
  destruct (detectMultiScale (to_gray (frame t))) as [|r0 found] eqn:Hdet;
    [congruence|].
  cbn [length Nat.ltb Nat.leb fst snd]. split; [reflexivity|].
  unfold Classifier.train_model.
  match goal with
  | |- context [Classifier.train_model_on _ _ _ ?l ?s2] =>
      destruct (train_model_on_fields l s2) as (Hids & _ & _ & Hdb & _);
      set (s2' := s2) in *; set (l' := l) in *
  end.
  split.
  - rewrite Hdb. reflexivity.
  - destruct (FilesFacts.picture_name name) as [Himg Hroot].
    rewrite Hdots in Hroot.
    assert (Hin : (name +:+ ".jpg", fold_left rectangle (r0 :: found) (frame t))
                  ∈ image_files l').
    { apply list_elem_of_In, List.filter_In. split; [|exact Himg].
      apply list_elem_of_In, elem_of_map_to_list.
      subst l' s2'. cbn [database imwrite print with_env].
      apply lookup_insert_eq. }
    apply list_elem_of_lookup in Hin as [i Hi].
    exists (1 + Z.of_nat i)%Z. rewrite Hids.
    pose proof (proj1 (table_lookup (image_files l') 1) i _ Hi) as Ht.
    cbn [fst] in Ht. rewrite Hroot in Ht. exact Ht.
Qed.

End WithOracles.

(** *** Concrete runs *)

Definition keep (picture : nat) (r : rect) : nat := picture.

Definition far_predict (model : list (Z * Z)) (face : Z) : Z * Q :=
  (1%Z, 80%Q).

Lemma train_model_table_witness :
  employee_ids
    (Classifier.train_model_on id toy_detect toy_crop
       [("alice.jpg", 4%nat); ("notes.txt", 4%nat); ("bob.jpg", 0%nat)]
       (toy_system [] ∅))
  !! 2%Z = Some "bob".
Proof.
  exact (proj1 (train_model_table id toy_detect toy_crop
                  [("alice.jpg", 4%nat); ("notes.txt", 4%nat);
                   ("bob.jpg", 0%nat)] (toy_system [] ∅))
           1%nat ("bob.jpg", 0%nat) eq_refl).
Defined.

Lemma train_model_without_faces_witness :
  recognizer
    (Classifier.train_model_on id toy_detect toy_crop [("bob.jpg", 0%nat)]
       (toy_system [(4, 1)%Z] {[1%Z := "alice"]}))
  = [(4, 1)%Z].
Proof.
  refine (proj1 (train_model_without_faces id toy_detect toy_crop
                   [("bob.jpg", 0%nat)]
                   (toy_system [(4, 1)%Z] {[1%Z := "alice"]}) _)).
  intros entry Hin. apply list_elem_of_singleton in Hin. subst entry.
  reflexivity.
Defined.

Lemma run_rejects_low_confidence_witness :
  attendance_log
    (env (fst (Classifier.run id toy_detect toy_crop far_predict toy_text
                 [toy_tick 4 0; toy_tick 4 ord_q]
                 (toy_system [(4, 1)%Z] {[1%Z := "alice"]}))))
  = attendance_log (env (toy_system [(4, 1)%Z] {[1%Z := "alice"]})).
Proof.
  refine (proj1 (run_rejects_low_confidence id toy_detect toy_crop far_predict
                   toy_text
                   [toy_tick 4 0; toy_tick 4 ord_q]
                   (toy_system [(4, 1)%Z] {[1%Z := "alice"]}) _)).
  intros face. vm_compute. discriminate.
Defined.

Lemma add_employee_without_face_witness :
  database
    (fst (Classifier.add_employee id toy_detect toy_crop keep "bob"
            [toy_tick 0 ord_c; toy_tick 0 ord_q]
            (toy_system [(4, 1)%Z] {[1%Z := "alice"]})))
  = database (toy_system [(4, 1)%Z] {[1%Z := "alice"]}).
Proof.
  refine (proj1 (add_employee_without_face id toy_detect toy_crop keep "bob"
                   [toy_tick 0 ord_c; toy_tick 0 ord_q]
                   (toy_system [(4, 1)%Z] {[1%Z := "alice"]}) _)).
  intros t Hin _.
  apply elem_of_cons in Hin as [->|Hin]; [reflexivity|].
  apply list_elem_of_singleton in Hin. subst t. reflexivity.
Defined.

Lemma add_employee_enrolls_witness :
  exists label,
    employee_ids
      (fst (Classifier.add_employee id toy_detect toy_crop keep "bob"
              [toy_tick 4 ord_c] (toy_system [] ∅)))
    !! label = Some "bob".
Proof.
  refine (proj2 (proj2 (add_employee_enrolls id toy_detect toy_crop keep "bob"
                          (toy_tick 4 ord_c) [] (toy_system [] ∅)
                          eq_refl eq_refl _ eq_refl))).
  discriminate.
Defined.

Lemma trained_face_resolves_witness :
  snd (Classifier.recognize_face toy_crop toy_predict toy_text 4%nat
         (0, 0, 4, 4)%Z morning
         (Classifier.train_model_on id toy_detect toy_crop
            [("alice.jpg", 4%nat)] (toy_system [] ∅)))
  = Some "alice".
Proof.
  destruct (trained_face_resolves id toy_detect toy_crop toy_predict toy_text
              [("alice.jpg", 4%nat)] (toy_system [] ∅) 4%nat (0, 0, 4, 4)%Z
              morning)
    as (entry & Hin & _ & H).
  - discriminate.
  - exists 4%Z. apply list_elem_of_here.
  - reflexivity.
  - rewrite H. apply list_elem_of_singleton in Hin. now subst entry.
Defined.

End ClassifierMore.
